(** * The failure monitor of complainer: deduplication, dispatch and eviction

    A shallow embedding of [monitor/monitor.go] and the properties of its
    run loop.  The monitor polls the cluster for failed tasks, decides for
    each one whether it is new and recent enough to be reported
    ([checkFailure]), fans the accepted ones out to the configured reporters
    ([processFailure]) and finally purges old entries of its cache of seen
    tasks ([cleanupRecent]). *)

From Stdlib Require Import ZArith Lia.
From stdpp Require Import base relations gmap sets list strings.

(** ** Go's [time] package, as far as the monitor uses it *)

Module GoTime.

(** A [time.Time] without a monotonic reading is a wall-clock instant.  It
    is represented by the number of nanoseconds elapsed since
    January 1, year 1, 00:00:00 UTC, the instant Go calls the zero [Time];
    instants before it are negative. *)
Abbreviation Time := Z (only parsing).

(** A [time.Duration] is an [int64] count of nanoseconds. *)
Abbreviation Duration := Z (only parsing).

Definition minDuration : Duration := (- 2 ^ 63)%Z.
Definition maxDuration : Duration := (2 ^ 63 - 1)%Z.

Definition Nanosecond : Duration := 1%Z.
Definition Microsecond : Duration := (1000 * Nanosecond)%Z.
Definition Millisecond : Duration := (1000 * Microsecond)%Z.
Definition Second : Duration := (1000 * Millisecond)%Z.
Definition Minute : Duration := (60 * Second)%Z.

(** [t.IsZero()] *)
Definition IsZero (t : Time) : bool := (t =? 0)%Z.

(** [t.Sub(u)]: the difference [t - u], pinned to the largest or the
    smallest [Duration] when it does not fit in an [int64]. *)
Definition Sub (t u : Time) : Duration :=
  if (maxDuration <? t - u)%Z then maxDuration
  else if (t - u <? minDuration)%Z then minDuration
  else (t - u)%Z.

End GoTime.

Import GoTime.

(** ** Data model *)

(** Go's [error]: [None] is [nil], [Some msg] an error whose [Error()] text
    is [msg]. *)
Definition error := option string.

(** Modelled from the spec: the declaration of [complainer.Failure] is not
    part of [monitor.go].  The monitor reads the fields [ID], [Finished] and
    [Labels] only. *)
Record Failure := mkFailure {
  ID : string;
  Finished : Time;
  Labels : list (string * string)
}.

(** Modelled from the spec: the view [label.NewLabels(name, labels)] of the
    labels of a failure, as seen by the monitor called [name]. *)
Record LabelView := NewLabels {
  lv_name : string;
  lv_labels : list (string * string)
}.

(** Modelled from the spec: [reporter.NewConfigProvider(labels, n, i)], the
    read-only configuration handed to reporter [n] for its instance [i]. *)
Record ConfigProvider := NewConfigProvider {
  cp_labels : LabelView;
  cp_reporter : string;
  cp_instance : string
}.

(** The collaborators are interfaces to the monitor; each is the record of
    its methods.  [Failures] is asked once per run: its [k]-th answer is
    [Failures k]. *)
Record Cluster := mkCluster {
  Failures : nat -> list Failure * error;
  Logs : Failure -> string * string * error
}.

Record Uploader := mkUploader {
  Upload : Failure -> string -> string -> string * string * error
}.

Record Reporter := mkReporter {
  Report : Failure -> ConfigProvider -> string -> string -> error
}.

(** [type Monitor struct].  A [nil] map is [None]. *)
Record Monitor := mkMonitor {
  name : string;
  mesos : Cluster;
  uploader : Uploader;
  reporters : gmap string Reporter;
  recent : option (gmap string Time)
}.

Definition NewMonitor (name : string) (cluster : Cluster) (up : Uploader)
    (reporters : gmap string Reporter) : Monitor :=
  {| name := name; mesos := cluster; uploader := up;
     reporters := reporters; recent := None |}.

(** [DefaultName is the default name of the complainer instance] *)
Definition DefaultName : string := "default".

(** [timeout before purging old seen tasks] *)
Definition timeout : Duration := Minute.

(** What a run does to the outside: the lines it logs and the calls it makes
    to the log resolver, the uploader and the reporters. *)
Inductive Event :=
| LogReporting (failure : Failure)
    (* "Reporting %s" *)
| LogErrorReporting (id err : string)
    (* "Error reporting failure of %s: %s" *)
| LogCannotReport (n i id err : string)
    (* "Cannot generate report with %s [instance=%s] for task with ID %s: %s" *)
| CallLogs (failure : Failure)
| CallUpload (failure : Failure) (stdoutURL stderrURL : string)
| CallReport (n : string) (failure : Failure) (config : ConfigProvider)
    (stdoutURL stderrURL : string).

(** The state a run works on: the monitor, the number of times the clock
    was read, the cluster was polled and a map was ranged over so far, and
    the events so far, oldest first. *)
Record World := mkWorld {
  mon : Monitor;
  ticks : nat;
  polls : nat;
  ranges : nat;
  events : list Event
}.

Definition with_recent (r : option (gmap string Time)) (m : Monitor) : Monitor :=
  {| name := name m; mesos := mesos m; uploader := uploader m;
     reporters := reporters m; recent := r |}.

Definition set_recent (r : option (gmap string Time)) (w : World) : World :=
  {| mon := with_recent r (mon w);
     ticks := ticks w; polls := polls w; ranges := ranges w;
     events := events w |}.

Definition tick (w : World) : World :=
  {| mon := mon w; ticks := S (ticks w); polls := polls w;
     ranges := ranges w; events := events w |}.

Definition polled (w : World) : World :=
  {| mon := mon w; ticks := ticks w; polls := S (polls w);
     ranges := ranges w; events := events w |}.

Definition ranged (w : World) : World :=
  {| mon := mon w; ticks := ticks w; polls := polls w;
     ranges := S (ranges w); events := events w |}.

Definition emitted (e : Event) (w : World) : World :=
  {| mon := mon w; ticks := ticks w; polls := polls w;
     ranges := ranges w; events := events w ++ [e] |}.

(** ** Computations: state passing, with Go's panics *)

Inductive Res (A : Type) :=
| Done (a : A) (w : World)
| Panic (msg : string).
Arguments Done {A} a w.
Arguments Panic {A} msg.

Definition M (A : Type) : Type := World -> Res A.

Definition ret {A} (a : A) : M A := fun w => Done a w.

Definition bind {A B} (c : M A) (k : A -> M B) : M B :=
  fun w => match c w with
           | Done a w' => k a w'
           | Panic msg => Panic msg
           end.

Notation "'let*' x ':=' c 'in' k" := (bind c (fun x => k))
  (at level 10, x pattern, c at level 100, k at level 200).
Notation "c ';;' k" := (bind c (fun _ => k))
  (at level 100, k at level 200, right associativity).

(** [for _, x := range xs { body(x) }] over a slice. *)
Fixpoint for_each {A} (body : A -> M unit) (xs : list A) : M unit :=
  match xs with
  | [] => ret tt
  | x :: xs' => body x ;; for_each body xs'
  end.

Definition panic {A} (msg : string) : M A := fun _ => Panic msg.

Definition log_Printf (e : Event) : M unit := fun w => Done tt (emitted e w).

Definition get_monitor : M Monitor := fun w => Done (mon w) w.

(** ** The monitor *)

(** What the process cannot control: the wall clock, the order in which a
    [range] loop visits the keys of a map, and the label package. *)
Record Runtime := mkRuntime {
  (** the [k]-th reading of [time.Now()] *)
  clock : nat -> Time;
  (** the order in which the [k]-th [range] loop over a map visits the keys
      present when the loop starts; Go leaves it unspecified and varies it
      from one loop to the next *)
  range_keys : nat -> gset string -> list string;
  (** [labels.Instances(n)] *)
  Instances : LabelView -> string -> list string
}.

Section Monitor.

Context (rt : Runtime).

(** [time.Now()] *)
Definition time_Now : M Time := fun w => Done (clock rt (ticks w)) (tick w).

(** [time.Since(t)] for a [t] without a monotonic reading, which is
    [time.Now().Sub(t)]. *)
Definition time_Since (t : Time) : M Duration :=
  let* now := time_Now in ret (Sub now t).

(** [m.recent[id]]: reading a key that is absent, or reading a [nil] map,
    yields the zero [Time]. *)
Definition recent_get (id : string) : M Time :=
  fun w => Done (default 0%Z (default ∅ (recent (mon w)) !! id)) w.

(** [m.recent[id] = t]: an assignment to an entry of a [nil] map panics. *)
Definition recent_put (id : string) (t : Time) : M unit :=
  fun w => match recent (mon w) with
           | Some c => Done tt (set_recent (Some (<[id := t]> c)) w)
           | None => panic "assignment to entry in nil map" w
           end.

(** [delete(m.recent, id)]: a no-op on a [nil] map. *)
Definition recent_delete (id : string) : M unit :=
  fun w => match recent (mon w) with
           | Some c => Done tt (set_recent (Some (delete id c)) w)
           | None => Done tt w
           end.

(** The entries a [for n, v := range m] loop produces, in the order the
    loop visits them.  The loops of the monitor change the map they range
    over at most by deleting the entry just produced, so each entry
    present at the start is produced once, with its value at the start. *)
Definition range_map {V} (m : gmap string V) : M (list (string * V)) :=
  fun w => Done (omap (fun n => pair n <$> m !! n)
                      (range_keys rt (ranges w) (dom m)))
                (ranged w).

(** [m.mesos.Failures()] *)
Definition mesos_Failures : M (list Failure * error) :=
  fun w => Done (Failures (mesos (mon w)) (polls w)) (polled w).

(** [m.mesos.Logs(failure)] *)
Definition mesos_Logs (failure : Failure) : M (string * string * error) :=
  fun w => Done (Logs (mesos (mon w)) failure) (emitted (CallLogs failure) w).

(** [m.uploader.Upload(failure, stdoutURL, stderrURL)] *)
Definition uploader_Upload (failure : Failure) (stdoutURL stderrURL : string)
    : M (string * string * error) :=
  fun w => Done (Upload (uploader (mon w)) failure stdoutURL stderrURL)
                (emitted (CallUpload failure stdoutURL stderrURL) w).

(** [r.Report(failure, config, stdoutURL, stderrURL)] for the reporter [r]
    registered as [n] *)
Definition call_Report (n : string) (r : Reporter) (failure : Failure)
    (config : ConfigProvider) (stdoutURL stderrURL : string) : M error :=
  fun w => Done (Report r failure config stdoutURL stderrURL)
                (emitted (CallReport n failure config stdoutURL stderrURL) w).

(** [func (m *Monitor) checkFailure(failure complainer.Failure, first bool) bool] *)
Definition checkFailure (failure : Failure) (first : bool) : M bool :=
  let* seen := recent_get (ID failure) in
  if negb (IsZero seen) then ret false
  else
    recent_put (ID failure) (Finished failure) ;;
    let* since := time_Since (Finished failure) in
    if (timeout / 2 <? since)%Z then ret false
    else if first then ret false
    else ret true.

(** [func (m *Monitor) cleanupRecent()] *)
Definition cleanupRecent : M unit :=
  let* m := get_monitor in
  let* entries := range_map (default ∅ (recent m)) in
  for_each (fun '(n, ts) =>
              let* since := time_Since ts in
              if (timeout <? since)%Z then recent_delete n else ret tt)
           entries.

(** [func (m *Monitor) processFailure(failure complainer.Failure) error] *)
Definition processFailure (failure : Failure) : M error :=
  log_Printf (LogReporting failure) ;;
  let* (stdoutURL, stderrURL, err) := mesos_Logs failure in
  match err with
  | Some e =>
      ret (Some ("cannot get stdout and stderr urls from mesos: " +:+ e))
  | None =>
      let* (stdoutURL, stderrURL, err) :=
        uploader_Upload failure stdoutURL stderrURL in
      match err with
      | Some e =>
          ret (Some ("cannot get stdout and stderr urls from uploader: " +:+ e))
      | None =>
          let* m := get_monitor in
          let labels := NewLabels (name m) (Labels failure) in
          let* rs := range_map (reporters m) in
          for_each (fun '(n, r) =>
            for_each (fun i =>
              let config := NewConfigProvider labels n i in
              let* err := call_Report n r failure config stdoutURL stderrURL in
              match err with
              | Some e => log_Printf (LogCannotReport n i (ID failure) e)
              | None => ret tt
              end) (Instances rt labels n)) rs ;;
          ret None
      end
  end.

(** The lazy creation of the cache at the start of [Run]; the result is
    the flag [first]. *)
Definition Run_init : M bool :=
  let* m := get_monitor in
  match recent m with
  | None => fun w => Done true (set_recent (Some ∅) w)
  | Some _ => ret false
  end.

(** The body of the loop of [Run] over the polled failures. *)
Definition Run_body (first : bool) (failure : Failure) : M unit :=
  let* accepted := checkFailure failure first in
  if accepted then
    let* err := processFailure failure in
    match err with
    | Some e => log_Printf (LogErrorReporting (ID failure) e)
    | None => ret tt
    end
  else ret tt.

(** [func (m *Monitor) Run() error] *)
Definition Run : M error :=
  let* (failures, err) := mesos_Failures in
  match err with
  | Some e => ret (Some e)
  | None =>
      let* first := Run_init in
      for_each (Run_body first) failures ;;
      cleanupRecent ;;
      ret None
  end.

(** The life of the process: the scheduler calls [Run] again and again;
    the results of the calls are collected, oldest first. *)
Fixpoint Runs (n : nat) : M (list error) :=
  match n with
  | O => ret []
  | S n' => let* r := Run in let* rs := Runs n' in ret (r :: rs)
  end.

End Monitor.

(** ** Vocabulary of the properties *)

(** The value the presence test of [checkFailure] reads for [id]. *)
Definition seen (w : World) (id : string) : Time :=
  default 0%Z (default ∅ (recent (mon w)) !! id).

(** The IDs of the failures handed to [processFailure], oldest first:
    [processFailure] begins by logging the failure it is given. *)
Definition dispatches (evs : list Event) : list string :=
  omap (fun e => match e with
                 | LogReporting failure => Some (ID failure)
                 | _ => None
                 end) evs.

(** The calls made to reporters, oldest first: reporter, instance, failure
    and the two URLs passed. *)
Definition report_calls (evs : list Event)
    : list (string * string * Failure * (string * string)) :=
  omap (fun e => match e with
                 | CallReport n failure config stdoutURL stderrURL =>
                     Some (n, cp_instance config, failure, (stdoutURL, stderrURL))
                 | _ => None
                 end) evs.

(** The events of [w'] that were not yet in [w]. *)
Definition events_since (w w' : World) : list Event :=
  drop (length (events w)) (events w').

(** [w] with the events [evs] added. *)
Definition emitted_all (evs : list Event) (w : World) : World :=
  {| mon := mon w; ticks := ticks w; polls := polls w;
     ranges := ranges w; events := events w ++ evs |}.

(** [w] after [k] more readings of the clock. *)
Definition advance (k : nat) (w : World) : World :=
  {| mon := mon w; ticks := k + ticks w; polls := polls w;
     ranges := ranges w; events := events w |}.

(** One turn of the loop of [cleanupRecent]. *)
Definition cleanup_body (rt : Runtime) : string * Time -> M unit :=
  fun '(n, ts) =>
    let* since := time_Since rt ts in
    if (timeout <? since)%Z then recent_delete n else ret tt.

(** The events of the calls of reporter [r], registered as [n], for the
    instance [i] of one failure: each call, followed by the line logged
    if the call failed. *)
Definition instance_events (n : string) (r : Reporter) (failure : Failure)
    (labels : LabelView) (stdoutURL stderrURL : string) (i : string)
    : list Event :=
  let config := NewConfigProvider labels n i in
  CallReport n failure config stdoutURL stderrURL ::
  match Report r failure config stdoutURL stderrURL with
  | Some e => [LogCannotReport n i (ID failure) e]
  | None => []
  end.

Definition report_events (rt : Runtime) (failure : Failure)
    (labels : LabelView) (stdoutURL stderrURL : string)
    (rs : list (string * Reporter)) : list Event :=
  '(n, r) ← rs;
  i ← Instances rt labels n;
  instance_events n r failure labels stdoutURL stderrURL i.

(** The part of [processFailure] after the URLs are known: the loop over
    the reporters and their instances. *)
Definition report_all (rt : Runtime) (failure : Failure)
    (labels : LabelView) (stdoutURL stderrURL : string)
    (rs : list (string * Reporter)) : M unit :=
  for_each (fun '(n, r) =>
    for_each (fun i =>
      let config := NewConfigProvider labels n i in
      let* err := call_Report n r failure config stdoutURL stderrURL in
      match err with
      | Some e => log_Printf (LogCannotReport n i (ID failure) e)
      | None => ret tt
      end) (Instances rt labels n)) rs.

(** The reporters in the order the loop of [processFailure] in [w] visits
    them. *)
Definition reporters_in_order (rt : Runtime) (w : World)
    : list (string * Reporter) :=
  omap (fun n => pair n <$> reporters (mon w) !! n)
       (range_keys rt (ranges w) (dom (reporters (mon w)))).

(** The verdict of [checkFailure] in [w] on a failure that passes the
    presence test. *)
Definition accepts (rt : Runtime) (failure : Failure) (first : bool)
    (w : World) : bool :=
  negb (Finished failure + timeout / 2 <? clock rt (ticks w))%Z && negb first.

(** Assumptions on the runtime. *)

(** The clock does not run backwards. *)
Definition clock_monotone (rt : Runtime) : Prop :=
  forall i j, i <= j -> (clock rt i <= clock rt j)%Z.

(** The clock reads later than half a minute past the zero [Time]. *)
Definition clock_past_zero (rt : Runtime) : Prop :=
  forall k, (timeout / 2 < clock rt k)%Z.

(** A [range] loop visits every key of the map once. *)
Definition range_fair (rt : Runtime) : Prop :=
  forall k (X : gset string), range_keys rt k X ≡ₚ elements X.

(** The failures the cluster ever returns. *)
Definition polled_by (c : Cluster) (failure : Failure) : Prop :=
  exists k, failure ∈ (Failures c k).1.

(** The cluster reports one [Finished] timestamp per ID. *)
Definition stable_IDs (U : Failure -> Prop) : Prop :=
  forall f g, U f -> U g -> ID f = ID g -> Finished f = Finished g.

(** The steps a monitor takes, in whatever order: polling the cluster,
    creating the cache, evaluating (and, if accepted, dispatching) a failure
    out of [U], and purging the cache. *)
Inductive op (rt : Runtime) (U : Failure -> Prop) : World -> World -> Prop :=
| op_poll w r w' :
    mesos_Failures w = Done r w' -> op rt U w w'
| op_init w first w' :
    Run_init w = Done first w' -> op rt U w w'
| op_body w first failure w' :
    U failure -> Run_body rt first failure w = Done tt w' -> op rt U w w'
| op_cleanup w w' :
    cleanupRecent rt w = Done tt w' -> op rt U w w'.

(** [failure] can no longer be accepted from [w] on: its timestamp is in
    the cache and is not the zero time, or the failure is older than
    [timeout / 2] on every reading of the clock still to come. *)
Definition settled (rt : Runtime) (w : World) (failure : Failure) : Prop :=
  (exists c, recent (mon w) = Some c /\
             c !! ID failure = Some (Finished failure) /\
             Finished failure <> 0%Z) \/
  (forall k, ticks w <= k -> (Finished failure + timeout / 2 < clock rt k)%Z).

(** Every entry of the cache of [w] is the ID and the [Finished] timestamp
    of a failure out of [U]. *)
Definition cache_from (U : Failure -> Prop) (w : World) : Prop :=
  forall c n ts,
    recent (mon w) = Some c -> c !! n = Some ts ->
    exists g, U g /\ ID g = n /\ Finished g = ts.

(** No ID was dispatched twice so far, and every failure out of [U] whose
    ID was dispatched is settled. *)
Definition dispatched_once (rt : Runtime) (U : Failure -> Prop) (w : World)
    : Prop :=
  cache_from U w /\
  NoDup (dispatches (events w)) /\
  forall g, U g -> ID g ∈ dispatches (events w) -> settled rt w g.






(** What the steps of the monitor never change. *)
Definition config (w : World) : Monitor := with_recent None (mon w).

(** ** Three statements that the monitor does not satisfy as they stand *)


(** Whatever its [Finished] timestamp, a failure whose ID is not in the
    cache is recorded by its evaluation, and is not evaluated again while
    that entry stays: a later evaluation returns at the presence test,
    leaving the world as it found it. *)
Definition evaluated_once_while_cached : Prop :=
  forall rt failure first w c,
    recent (mon w) = Some c ->
    c !! ID failure = None ->
    exists b w1 c1,
      checkFailure rt failure first w = Done b w1 /\
      recent (mon w1) = Some c1 /\
      c1 !! ID failure = Some (Finished failure) /\
      forall w2 c2 again first',
        recent (mon w2) = Some c2 ->
        c2 !! ID failure = Some (Finished failure) ->
        ID again = ID failure ->
        checkFailure rt again first' w2 = Done false w2.

(** An entry with timestamp [T] is gone after a purge whose readings of the
    clock are all at [T + timeout] or later, and still there after a purge
    whose readings are all earlier. *)
Definition evicted_from_timeout_on : Prop :=
  forall rt w c n T,
    range_fair rt ->
    recent (mon w) = Some c ->
    c !! n = Some T ->
    exists w' c',
      cleanupRecent rt w = Done tt w' /\
      recent (mon w') = Some c' /\
      ((forall k, (T + timeout <= clock rt k)%Z) -> c' !! n = None) /\
      ((forall k, (clock rt k < T + timeout)%Z) -> c' !! n = Some T).

(** ** Vocabulary of further properties *)

(** Why an event may occur under the monitor [m]: the uploader is called
    with the URLs the cluster resolved for the failure, and a reporter is
    called under a name it is registered with, for one of its instances,
    with the configuration of that instance and with the URLs the uploader
    returned for the failure.  Lines of the log need no reason. *)
Definition justified (rt : Runtime) (m : Monitor) (e : Event) : Prop :=
  match e with
  | CallUpload failure stdoutURL stderrURL =>
      Logs (mesos m) failure = (stdoutURL, stderrURL, None)
  | CallReport n failure config out err =>
      exists stdoutURL stderrURL,
        Logs (mesos m) failure = (stdoutURL, stderrURL, None) /\
        Upload (uploader m) failure stdoutURL stderrURL = (out, err, None) /\
        is_Some (reporters m !! n) /\
        cp_instance config ∈
          Instances rt (NewLabels (name m) (Labels failure)) n /\
        config = NewConfigProvider (NewLabels (name m) (Labels failure)) n
                   (cp_instance config)
  | _ => True
  end.

(** The instances the reporter registered as [n] was called for, oldest
    first. *)
Definition instances_called (n : string)
    (calls : list (string * string * Failure * (string * string)))
    : list string :=
  omap (fun '(n', i, _, _) => if decide (n' = n) then Some i else None) calls.

(** ** A concrete monitor, for examples *)

Module Scenario.

(** An instant in the year 2025. *)
Definition noon : Time := (63900000000 * Second)%Z.

Definition slack_only (labels : LabelView) (n : string) : list string :=
  if String.eqb n "slack" then ["team-a"] else [].

(** A clock that advances by one second from one reading to the next, and
    [range] loops that visit the keys in the order of [elements]. *)
Definition rt : Runtime :=
  {| clock := fun k => (noon + Z.of_nat k * Second)%Z;
     range_keys := fun _ X => elements X;
     Instances := slack_only |}.

(** A clock that stands still at [t]. *)
Definition frozen (t : Time) : Runtime :=
  {| clock := fun _ => t;
     range_keys := fun _ X => elements X;
     Instances := slack_only |}.

Definition task (id : string) (finished : Time) : Failure :=
  {| ID := id; Finished := finished; Labels := [] |}.

(** A cluster that answers the [k]-th poll with the [k]-th of [batches],
    and with an error once they are used up.  [Logs] fails for the
    failures listed in [nologs]. *)
Definition cluster (batches : list (list Failure)) (nologs : list string)
    : Cluster :=
  {| Failures := fun k =>
       match batches !! k with
       | Some batch => (batch, None)
       | None => ([], Some "mesos is unreachable")
       end;
     Logs := fun failure =>
       if bool_decide (ID failure ∈ nologs)
       then (String.EmptyString, String.EmptyString, Some "no such task")
       else ("stdout of " +:+ ID failure, "stderr of " +:+ ID failure, None) |}.

Definition s3 : Uploader :=
  {| Upload := fun _ stdoutURL stderrURL =>
       ("s3: " +:+ stdoutURL, "s3: " +:+ stderrURL, None) |}.

Definition failing : Reporter :=
  {| Report := fun _ _ _ _ => Some "connection refused" |}.

Definition working : Reporter :=
  {| Report := fun _ _ _ _ => None |}.

Definition monitor (batches : list (list Failure)) (nologs : list string)
    (slack : Reporter) : Monitor :=
  NewMonitor DefaultName (cluster batches nologs) s3
    (<["email" := working]> {["slack" := slack]}).

(** The world of a process that has just started. *)
Definition start_with (batches : list (list Failure)) (nologs : list string)
    (slack : Reporter) : World :=
  {| mon := monitor batches nologs slack;
     ticks := 0; polls := 0; ranges := 0; events := [] |}.

Definition start (batches : list (list Failure)) : World :=
  start_with batches [] failing.

(** The same process with the cache [c]. *)
Definition started (batches : list (list Failure)) (c : gmap string Time)
    : World :=
  set_recent (Some c) (start batches).

(** The world a computation leaves (the world it started from, should it
    panic). *)
Definition after {A} (c : M A) (w : World) : World :=
  match c w with
  | Done _ w' => w'
  | Panic _ => w
  end.

(** The value a computation returns, if it returns. *)
Definition result {A} (c : M A) (w : World) : option A :=
  match c w with
  | Done a _ => Some a
  | Panic _ => None
  end.

(** Three tasks: one that finished at noon, one that finished fifty
    seconds earlier, one that finishes three seconds later. *)
Definition t1 : Failure := task "t1" noon.
Definition t2 : Failure := task "t2" (noon - 50 * Second)%Z.
Definition t3 : Failure := task "t3" (noon + 3 * Second)%Z.

(** What the cluster answers, poll after poll. *)
Definition batches : list (list Failure) :=
  [[t1; t2]; [t1; t2; t3; t3]; [t3]].

End Scenario.

(** * Properties *)

(** ** Durations *)

Lemma timeout_value : timeout = 60000000000%Z.
Proof. reflexivity. Qed.

Lemma half_timeout_value : (timeout / 2)%Z = 30000000000%Z.
Proof. reflexivity. Qed.

(** Pinning the difference to the range of [int64] does not change how it
    compares with a duration inside that range. *)
Lemma Sub_gt (d : Duration) (now t : Time) :
  (minDuration <= d < maxDuration)%Z ->
  (d < Sub now t)%Z <-> (t + d < now)%Z.
Proof.
  unfold Sub. intros Hd.
  destruct (Z.ltb_spec maxDuration (now - t)); [lia|].
  destruct (Z.ltb_spec (now - t) minDuration); lia.
Qed.

Lemma Sub_gt_timeout (now t : Time) :
  (timeout <? Sub now t)%Z = (t + timeout <? now)%Z.
Proof.
  apply eq_iff_eq_true. rewrite !Z.ltb_lt. apply Sub_gt.
  rewrite timeout_value. unfold minDuration, maxDuration. lia.
Qed.

Lemma Sub_gt_half_timeout (now t : Time) :
  (timeout / 2 <? Sub now t)%Z = (t + timeout / 2 <? now)%Z.
Proof.
  apply eq_iff_eq_true. rewrite !Z.ltb_lt. apply Sub_gt.
  rewrite half_timeout_value. unfold minDuration, maxDuration. lia.
Qed.

(** ** Worlds *)

Lemma set_recent_id w : set_recent (recent (mon w)) w = w.
Proof. by destruct w as [[] ? ? ? ?]. Qed.

Lemma emitted_all_nil w : emitted_all [] w = w.
Proof. destruct w. unfold emitted_all. simpl. by rewrite app_nil_r. Qed.

Lemma emitted_all_app evs evs' w :
  emitted_all evs' (emitted_all evs w) = emitted_all (evs ++ evs') w.
Proof. unfold emitted_all. simpl. by rewrite app_assoc. Qed.

Lemma emitted_emitted_all e w : emitted e w = emitted_all [e] w.
Proof. reflexivity. Qed.


Lemma dispatches_app evs evs' :
  dispatches (evs ++ evs') = dispatches evs ++ dispatches evs'.
Proof. apply omap_app. Qed.

Lemma report_calls_app evs evs' :
  report_calls (evs ++ evs') = report_calls evs ++ report_calls evs'.
Proof. apply omap_app. Qed.

(** ** Loops *)

Lemma for_each_cons {A} (body : A -> M unit) x xs w :
  for_each body (x :: xs) w =
    match body x w with
    | Done _ w' => for_each body xs w'
    | Panic msg => Panic msg
    end.
Proof. reflexivity. Qed.

Section MonitorFacts.

Context (rt : Runtime).

(** ** [checkFailure], case by case *)

Lemma seen_Some w c id :
  recent (mon w) = Some c -> seen w id = default 0%Z (c !! id).
Proof. unfold seen. by intros ->. Qed.

(** An entry with a non-zero timestamp ends the evaluation at once: the
    clock is not read and nothing is written. *)
Lemma checkFailure_cached failure first w :
  seen w (ID failure) <> 0%Z ->
  checkFailure rt failure first w = Done false w.
Proof.
  intros Hs. unfold checkFailure, bind, recent_get. fold (seen w (ID failure)).
  unfold IsZero. destruct (Z.eqb_spec (seen w (ID failure)) 0); done.
Qed.

(** Otherwise the timestamp is written, the clock is read and the
    verdict is computed from the age of the failure and [first]. *)
Lemma checkFailure_unseen failure first w c :
  recent (mon w) = Some c ->
  seen w (ID failure) = 0%Z ->
  checkFailure rt failure first w =
    Done (negb (Finished failure + timeout / 2 <? clock rt (ticks w))%Z
          && negb first)
         (tick (set_recent (Some (<[ID failure := Finished failure]> c)) w)).
Proof.
  intros Hc Hs. unfold checkFailure, bind, recent_get.
  fold (seen w (ID failure)). rewrite Hs. simpl.
  unfold recent_put. rewrite Hc. unfold time_Since, bind, time_Now, ret.
  simpl. rewrite Sub_gt_half_timeout.
  destruct (_ <? _)%Z; [done|]. by destruct first.
Qed.

Lemma checkFailure_nil failure first w :
  recent (mon w) = None ->
  checkFailure rt failure first w = Panic "assignment to entry in nil map".
Proof.
  intros Hc. unfold checkFailure, bind, recent_get, recent_put.
  rewrite Hc. simpl. rewrite lookup_empty. simpl. by rewrite Hc.
Qed.

(** ** The loop body of [Run], case by case *)

Lemma Run_body_cached failure first w :
  seen w (ID failure) <> 0%Z ->
  Run_body rt first failure w = Done tt w.
Proof.
  intros Hs. unfold Run_body, bind. by rewrite checkFailure_cached.
Qed.

Lemma Run_body_rejected failure first w c :
  recent (mon w) = Some c ->
  seen w (ID failure) = 0%Z ->
  (Finished failure + timeout / 2 < clock rt (ticks w))%Z \/ first = true ->
  Run_body rt first failure w =
    Done tt (tick (set_recent (Some (<[ID failure := Finished failure]> c)) w)).
Proof.
  intros Hc Hs Hrej. unfold Run_body, bind.
  rewrite (checkFailure_unseen _ _ _ c) by done.
  destruct Hrej as [Hstale| ->].
  - apply Z.ltb_lt in Hstale. by rewrite Hstale.
  - by rewrite andb_false_r.
Qed.

End MonitorFacts.

Lemma advance_tick k w : advance k (tick w) = advance (S k) w.
Proof. unfold advance, tick. simpl. f_equal. lia. Qed.

(** ** Ranging over a map *)

Lemma range_entries_elem {V} (m : gmap string V) (ks : list string) n v :
  (n, v) ∈ omap (fun n => pair n <$> m !! n) ks -> m !! n = Some v.
Proof.
  rewrite list_elem_of_omap. intros (n' & _ & Hn').
  destruct (m !! n') as [v'|] eqn:Hm; simplify_eq/=. done.
Qed.

Lemma range_entries_fst {V} (m : gmap string V) (ks : list string) :
  (forall n, n ∈ ks -> is_Some (m !! n)) ->
  (omap (fun n => pair n <$> m !! n) ks).*1 = ks.
Proof.
  induction ks as [|k ks IH]; intros Hks; [done|].
  destruct (Hks k) as [v Hv]; [left|]. simpl. rewrite Hv. simpl.
  f_equal. apply IH. intros n Hn. apply Hks. by right.
Qed.

Section Cleanup.

Context (rt : Runtime).

Lemma cleanupRecent_unfold w :
  cleanupRecent rt w =
    (let* entries := range_map rt (default ∅ (recent (mon w))) in
     for_each (cleanup_body rt) entries) w.
Proof. reflexivity. Qed.

Lemma cleanup_body_step n ts w c :
  recent (mon w) = Some c ->
  cleanup_body rt (n, ts) w =
    Done tt (tick (set_recent
      (Some (if (ts + timeout <? clock rt (ticks w))%Z then delete n c else c)) w)).
Proof.
  intros Hc. unfold cleanup_body, bind, time_Since, bind, time_Now, ret.
  rewrite Sub_gt_timeout. destruct (_ <? _)%Z.
  - unfold recent_delete. simpl. by rewrite Hc.
  - by rewrite <- Hc, set_recent_id.
Qed.

(** The loop of [cleanupRecent] over the entries [l]: each turn reads the
    clock once, and the only change to the cache is the deletion of the
    entries found older than [timeout]. *)
Lemma cleanup_loop l : forall w c,
  recent (mon w) = Some c ->
  exists c',
    for_each (cleanup_body rt) l w =
      Done tt (advance (length l) (set_recent (Some c') w)) /\
    (forall n, n ∉ l.*1 -> c' !! n = c !! n) /\
    (forall n, c' !! n = None \/ c' !! n = c !! n) /\
    (forall n, is_Some (c !! n) -> c' !! n = None ->
       exists i ts, l !! i = Some (n, ts) /\
                    (ts + timeout < clock rt (ticks w + i))%Z) /\
    (NoDup l.*1 -> forall i n ts, l !! i = Some (n, ts) ->
       c' !! n = if (ts + timeout <? clock rt (ticks w + i))%Z
                 then None else c !! n).
Proof.
  induction l as [|[n ts] l IH]; intros w c Hc.
  { exists c. split; [|split; [done|split; [by right|split]]].
    - rewrite <- Hc. simpl. unfold ret. f_equal.
      destruct w as [[] ? ? ? ?]; done.
    - intros n [ts Hts] Hnone. congruence.
    - intros _ i n ts Hi. done. }
  set (c1 := if (ts + timeout <? clock rt (ticks w))%Z then delete n c else c).
  set (w1 := tick (set_recent (Some c1) w)).
  destruct (IH w1 c1) as (c' & Hrun & Hout & Hdel & Hwhy & Hin); [done|].
  assert (Hc1 : forall n', n' <> n -> c1 !! n' = c !! n').
  { intros n' Hn'. unfold c1. destruct (_ <? _)%Z; [|done].
    by rewrite lookup_delete_ne. }
  exists c'. split; [|split; [|split; [|split]]].
  - rewrite for_each_cons, (cleanup_body_step n ts w c Hc).
    fold c1. fold w1. rewrite Hrun. f_equal.
    simpl length. rewrite <- advance_tick. done.
  - intros n' Hn'. rewrite fmap_cons, not_elem_of_cons in Hn'.
    destruct Hn' as [Hne Hn']. rewrite Hout by done. by apply Hc1.
  - intros n'. destruct (Hdel n') as [?| ->]; [by left|].
    destruct (decide (n' = n)) as [->|Hne]; [|right; by apply Hc1].
    unfold c1. destruct (_ <? _)%Z; [|by right].
    left. apply lookup_delete_eq.
  - intros n' Hsome Hnone.
    destruct (c1 !! n') as [ts1|] eqn:Hc1n.
    + destruct (Hwhy n') as (i & ts' & Hi & Hold); [by rewrite Hc1n|done|].
      exists (S i), ts'. split; [done|].
      replace (ticks w + S i) with (ticks w1 + i) by (simpl; lia). done.
    + assert (n' = n) as ->.
      { destruct (decide (n' = n)); [done|].
        rewrite Hc1 in Hc1n by done. rewrite Hc1n in Hsome.
        by destruct Hsome. }
      exists 0, ts. split; [done|]. rewrite Nat.add_0_r.
      unfold c1 in Hc1n. destruct (Z.ltb_spec (ts + timeout) (clock rt (ticks w)));
        [done|]. rewrite Hc1n in Hsome. by destruct Hsome.
  - intros Hnd i n' ts' Hi. rewrite fmap_cons in Hnd.
    apply NoDup_cons in Hnd as [Hn Hnd]. destruct i as [|i]; simpl in Hi.
    + simplify_eq. rewrite Nat.add_0_r, Hout by done.
      unfold c1. destruct (_ <? _)%Z; [|done]. apply lookup_delete_eq.
    + rewrite (Hin Hnd i n' ts' Hi).
      replace (ticks w1 + i) with (ticks w + S i) by (simpl; lia).
      rewrite Hc1; [done|]. intros ->. apply Hn.
      apply list_elem_of_fmap. exists (n, ts').
      split; [done|]. by eapply list_elem_of_lookup_2.
Qed.

End Cleanup.

Section CleanupRecent.

Context (rt : Runtime).

Lemma cleanupRecent_nil w :
  recent (mon w) = None -> cleanupRecent rt w = Done tt (ranged w).
Proof.
  intros Hc. rewrite cleanupRecent_unfold. unfold bind, range_map.
  rewrite Hc. simpl. rewrite dom_empty_L.
  replace (omap _ _) with (@nil (string * Time)); [done|].
  symmetry. induction (range_keys rt (ranges w) ∅) as [|k ks IH]; [done|].
  simpl. by rewrite lookup_empty.
Qed.

(** Whatever the order of the loop, [cleanupRecent] only deletes, and it
    deletes an entry only on a reading of the clock later than [timeout]
    past the timestamp of the entry. *)
Lemma cleanupRecent_deletes_only_old w c :
  recent (mon w) = Some c ->
  exists c' k,
    cleanupRecent rt w =
      Done tt (advance k (ranged (set_recent (Some c') w))) /\
    (forall n, c' !! n = None \/ c' !! n = c !! n) /\
    (forall n ts, c !! n = Some ts -> c' !! n = None ->
       exists j, j < k /\ (ts + timeout < clock rt (ticks w + j))%Z).
Proof.
  intros Hc. rewrite cleanupRecent_unfold. unfold bind, range_map.
  rewrite Hc. simpl.
  set (l := omap _ _).
  destruct (cleanup_loop rt l (ranged w) c Hc)
    as (c' & Hrun & _ & Hdel & Hwhy & _).
  exists c', (length l). split; [exact Hrun|]. split; [done|].
  intros n ts Hn Hnone.
  destruct (Hwhy n) as (i & ts' & Hi & Hold); [by rewrite Hn|done|].
  exists i. split; [by eapply lookup_lt_Some|].
  pose proof (range_entries_elem c _ n ts'
                (list_elem_of_lookup_2 _ _ _ Hi)) as Hts.
  rewrite Hn in Hts. by simplify_eq.
Qed.

Lemma range_fair_entries (c : gmap string Time) k :
  range_fair rt ->
  let ks := range_keys rt k (dom c) in
  NoDup ks /\ length ks = size c /\
  (forall n, n ∈ ks <-> is_Some (c !! n)).
Proof.
  intros Hfair ks. pose proof (Hfair k (dom c)) as Hp. fold ks in Hp.
  split; [|split].
  - rewrite Hp. apply NoDup_elements.
  - rewrite Hp. rewrite <- size_dom. done.
  - intros n. rewrite Hp, elem_of_elements. apply elem_of_dom.
Qed.

End CleanupRecent.

(** ** Evaluation of one failure *)

Section Evaluation.

Context (rt : Runtime).

(** C3: a failure whose [Finished] timestamp is more than [timeout / 2]
    (thirty seconds) older than the clock at its evaluation is rejected by
    [checkFailure], so the loop of [Run] does not dispatch it and adds no
    event, whether the run is the first one or not; its ID is in the cache
    afterwards, with the [Finished] timestamp if it was not there before. *)
Theorem stale_failure_is_recorded_but_not_dispatched failure first w c :
  recent (mon w) = Some c ->
  (Finished failure + timeout / 2 < clock rt (ticks w))%Z ->
  exists w' c',
    checkFailure rt failure first w = Done false w' /\
    Run_body rt first failure w = Done tt w' /\
    events w' = events w /\
    recent (mon w') = Some c' /\
    is_Some (c' !! ID failure) /\
    (c !! ID failure = None -> c' !! ID failure = Some (Finished failure)).
Proof.
  intros Hc Hstale.
  destruct (decide (seen w (ID failure) = 0%Z)) as [Hs|Hs].
  - exists (tick (set_recent (Some (<[ID failure := Finished failure]> c)) w)),
      (<[ID failure := Finished failure]> c).
    rewrite (checkFailure_unseen rt _ _ _ c Hc Hs).
    rewrite (Run_body_rejected rt _ _ _ c Hc Hs) by (by left).
    apply Z.ltb_lt in Hstale. rewrite Hstale. simpl.
    rewrite lookup_insert_eq. eauto 10.
  - exists w, c. rewrite checkFailure_cached, Run_body_cached by done.
    rewrite (seen_Some _ c) in Hs by done.
    destruct (c !! ID failure) as [ts|] eqn:Hts; [|done].
    split; [done|]. split; [done|]. split; [done|]. split; [done|].
    split; [by exists ts|done].
Qed.

(** C4, as amended: a failure with a non-zero [Finished] timestamp whose
    ID is not in the cache is recorded by its evaluation on every path,
    accepted, rejected as stale or rejected in the first run; while that
    entry stays, every later evaluation of the ID returns at the presence
    test, leaving the world as it found it. *)
Theorem nonzero_failure_is_evaluated_once failure first w c :
  Finished failure <> 0%Z ->
  recent (mon w) = Some c ->
  c !! ID failure = None ->
  exists w1 c1,
    checkFailure rt failure first w =
      Done (negb (Finished failure + timeout / 2 <? clock rt (ticks w))%Z
            && negb first) w1 /\
    recent (mon w1) = Some c1 /\
    c1 !! ID failure = Some (Finished failure) /\
    forall w2 c2 again first',
      recent (mon w2) = Some c2 ->
      c2 !! ID failure = Some (Finished failure) ->
      ID again = ID failure ->
      checkFailure rt again first' w2 = Done false w2.
Proof.
  intros Hnz Hc Hnew.
  assert (Hs : seen w (ID failure) = 0%Z).
  { by rewrite (seen_Some _ c), Hnew. }
  eexists _, _. split; [by apply checkFailure_unseen|].
  split; [done|]. split; [apply lookup_insert_eq|].
  intros w2 c2 again first' Hc2 Hin Hid.
  apply checkFailure_cached. by rewrite (seen_Some _ c2), Hid, Hin.
Qed.

(** C10: the presence test of [checkFailure] looks at the timestamp stored
    for the ID.  A non-zero stored timestamp ends every evaluation of the
    ID at once, with the world unchanged.  A stored zero timestamp is
    treated exactly as a missing entry: the failure is evaluated and
    recorded again; and a failure whose [Finished] is the zero time is
    rejected whenever the clock reads later than thirty seconds past the
    zero time. *)
Theorem presence_is_a_nonzero_timestamp failure first w c :
  recent (mon w) = Some c ->
  (forall ts, c !! ID failure = Some ts -> ts <> 0%Z ->
     checkFailure rt failure first w = Done false w) /\
  (c !! ID failure = Some 0%Z ->
     checkFailure rt failure first w =
       checkFailure rt failure first
         (set_recent (Some (delete (ID failure) c)) w) /\
     exists b,
       checkFailure rt failure first w =
         Done b (tick (set_recent
                   (Some (<[ID failure := Finished failure]> c)) w))) /\
  (Finished failure = 0%Z ->
     (timeout / 2 < clock rt (ticks w))%Z ->
     exists w', checkFailure rt failure first w = Done false w').
Proof.
  intros Hc. split; [|split].
  - intros ts Hts Hnz. apply checkFailure_cached.
    by rewrite (seen_Some _ c), Hts.
  - intros Hzero.
    assert (Hs : seen w (ID failure) = 0%Z).
    { by rewrite (seen_Some _ c), Hzero. }
    split; [|eexists; by apply checkFailure_unseen].
    rewrite (checkFailure_unseen rt _ _ w c Hc Hs).
    rewrite (checkFailure_unseen rt _ _ _ (delete (ID failure) c)).
    + by rewrite insert_delete_eq.
    + done.
    + unfold seen. simpl. by rewrite lookup_delete_eq.
  - intros Hfin Hclock.
    destruct (decide (seen w (ID failure) = 0%Z)) as [Hs|Hs].
    + eexists. rewrite (checkFailure_unseen rt _ _ w c Hc Hs).
      rewrite Hfin, Z.add_0_l. apply Z.ltb_lt in Hclock.
      by rewrite Hclock.
    + eexists. by apply checkFailure_cached.
Qed.

(** C6: when the poll fails, [Run] returns the error of the poll and
    touches nothing: the monitor, and with it the cache, is as before (a
    cache not yet created stays so), the clock was not read, no map was
    ranged over and no event occurred. *)
Theorem poll_error_aborts_the_run w failures e :
  Failures (mesos (mon w)) (polls w) = (failures, Some e) ->
  exists w',
    Run rt w = Done (Some e) w' /\
    mon w' = mon w /\ ticks w' = ticks w /\ ranges w' = ranges w /\
    events w' = events w /\ polls w' = S (polls w).
Proof.
  intros Hpoll. exists (polled w).
  unfold Run, bind, mesos_Failures. rewrite Hpoll. done.
Qed.

(** C5, as amended: [cleanupRecent] checks every entry once, on a reading
    of the clock of its own, and removes exactly the entries whose
    timestamp [T] (the [Finished] time recorded, not the time of the
    insertion) is older than that reading minus [timeout].  So an entry
    is gone when the readings are later than [T + timeout], and still
    there when they are at [T + timeout] or earlier.  Nothing is added. *)
Theorem eviction_removes_entries_older_than_timeout w c :
  range_fair rt ->
  recent (mon w) = Some c ->
  exists c',
    cleanupRecent rt w =
      Done tt (advance (size c) (ranged (set_recent (Some c') w))) /\
    (forall n, c !! n = None -> c' !! n = None) /\
    (forall n T, c !! n = Some T ->
       (exists k, ticks w <= k < ticks w + size c /\
          c' !! n = if (T + timeout <? clock rt k)%Z then None else Some T) /\
       ((forall k, ticks w <= k < ticks w + size c ->
           (T + timeout < clock rt k)%Z) -> c' !! n = None) /\
       ((forall k, ticks w <= k < ticks w + size c ->
           (clock rt k <= T + timeout)%Z) -> c' !! n = Some T)).
Proof.
  intros Hfair Hc. rewrite cleanupRecent_unfold. unfold bind, range_map.
  rewrite Hc. simpl.
  destruct (range_fair_entries rt c (ranges w) Hfair) as (Hnd & Hlen & Hks).
  set (ks := range_keys rt (ranges w) (dom c)) in *.
  set (l := omap _ ks).
  assert (Hfst : l.*1 = ks).
  { apply range_entries_fst. intros n. apply Hks. }
  assert (Hl : length l = size c).
  { by rewrite <- Hlen, <- Hfst, length_fmap. }
  destruct (cleanup_loop rt l (ranged w) c Hc)
    as (c' & Hrun & Hout & _ & _ & Hin).
  exists c'. split; [by rewrite Hrun, Hl|]. split.
  { intros n Hn. rewrite Hout; [done|]. rewrite Hfst, Hks, Hn.
    by intros []. }
  intros n T Hn.
  assert (exists i, l !! i = Some (n, T)) as [i Hi].
  { assert (n ∈ l.*1) as Hnl by (rewrite Hfst; apply Hks; eauto).
    apply list_elem_of_fmap in Hnl as ([n' T'] & -> & Hnl).
    apply list_elem_of_lookup in Hnl as [i Hi]. exists i.
    pose proof (range_entries_elem c ks _ _
                  (list_elem_of_lookup_2 _ _ _ Hi)) as HT.
    simpl in Hn, HT. rewrite Hn in HT. by simplify_eq. }
  assert (Hlt : i < size c).
  { rewrite <- Hl. by eapply lookup_lt_Some. }
  specialize (Hin ltac:(by rewrite Hfst) i n T Hi). simpl in Hin.
  rewrite Hn in Hin. split; [|split].
  - exists (ticks w + i). split; [lia|done].
  - intros Hall. rewrite Hin.
    specialize (Hall (ticks w + i) ltac:(lia)).
    apply Z.ltb_lt in Hall. by rewrite Hall.
  - intros Hall. rewrite Hin.
    specialize (Hall (ticks w + i) ltac:(lia)).
    apply Z.ltb_ge in Hall. by rewrite Hall.
Qed.

End Evaluation.

(** ** Dispatch of one failure *)

Section Dispatch.

Context (rt : Runtime).

Lemma report_instances_loop n r failure labels stdoutURL stderrURL insts w :
  for_each (fun i =>
      let config := NewConfigProvider labels n i in
      let* err := call_Report n r failure config stdoutURL stderrURL in
      match err with
      | Some e => log_Printf (LogCannotReport n i (ID failure) e)
      | None => ret tt
      end) insts w =
  Done tt (emitted_all
    (insts ≫= instance_events n r failure labels stdoutURL stderrURL) w).
Proof.
  revert w. induction insts as [|i insts IH]; intros w.
  { simpl. by rewrite emitted_all_nil. }
  rewrite for_each_cons. unfold bind at 1, call_Report at 1.
  change ((i :: insts) ≫= ?f) with (f i ++ (insts ≫= f)).
  rewrite <- emitted_all_app. unfold instance_events at 2.
  destruct (Report r failure _ stdoutURL stderrURL) as [e|].
  - unfold log_Printf. rewrite IH.
    by rewrite !emitted_emitted_all, !emitted_all_app.
  - unfold ret. rewrite IH.
    by rewrite !emitted_emitted_all, !emitted_all_app.
Qed.

Lemma report_all_spec failure labels stdoutURL stderrURL rs w :
  report_all rt failure labels stdoutURL stderrURL rs w =
  Done tt (emitted_all
    (report_events rt failure labels stdoutURL stderrURL rs) w).
Proof.
  revert w. induction rs as [|[n r] rs IH]; intros w.
  { simpl. by rewrite emitted_all_nil. }
  unfold report_all. rewrite for_each_cons, report_instances_loop.
  fold (report_all rt failure labels stdoutURL stderrURL rs).
  rewrite IH, emitted_all_app. done.
Qed.

(** [processFailure], case by case. *)
Lemma processFailure_no_logs failure w stdoutURL stderrURL e :
  Logs (mesos (mon w)) failure = (stdoutURL, stderrURL, Some e) ->
  processFailure rt failure w =
    Done (Some ("cannot get stdout and stderr urls from mesos: " +:+ e))
         (emitted_all [LogReporting failure; CallLogs failure] w).
Proof.
  intros HL. unfold processFailure, bind, log_Printf, mesos_Logs. simpl.
  rewrite HL. unfold ret. f_equal.
  unfold emitted, emitted_all. simpl. by rewrite <- !app_assoc.
Qed.

Lemma processFailure_no_upload failure w stdoutURL stderrURL out err e :
  Logs (mesos (mon w)) failure = (stdoutURL, stderrURL, None) ->
  Upload (uploader (mon w)) failure stdoutURL stderrURL = (out, err, Some e) ->
  processFailure rt failure w =
    Done (Some ("cannot get stdout and stderr urls from uploader: " +:+ e))
         (emitted_all [LogReporting failure; CallLogs failure;
                       CallUpload failure stdoutURL stderrURL] w).
Proof.
  intros HL HU. unfold processFailure, bind, log_Printf, mesos_Logs. simpl.
  rewrite HL. unfold uploader_Upload. simpl. rewrite HU.
  unfold ret. f_equal.
  unfold emitted, emitted_all. simpl. by rewrite <- !app_assoc.
Qed.

Lemma processFailure_reports failure w stdoutURL stderrURL out err :
  Logs (mesos (mon w)) failure = (stdoutURL, stderrURL, None) ->
  Upload (uploader (mon w)) failure stdoutURL stderrURL = (out, err, None) ->
  processFailure rt failure w =
    Done None
      (emitted_all
         ([LogReporting failure; CallLogs failure;
           CallUpload failure stdoutURL stderrURL] ++
          report_events rt failure
            (NewLabels (name (mon w)) (Labels failure)) out err
            (reporters_in_order rt w))
         (ranged w)).
Proof.
  intros HL HU. unfold processFailure, bind, log_Printf, mesos_Logs. simpl.
  rewrite HL. unfold uploader_Upload. simpl. rewrite HU.
  unfold get_monitor, range_map. simpl.
  match goal with
  | |- context [for_each ?body ?rs ?w0] =>
      change (for_each body rs w0)
        with (report_all rt failure
                (NewLabels (name (mon w)) (Labels failure)) out err rs w0)
  end.
  rewrite report_all_spec. unfold ret. f_equal.
  unfold emitted, emitted_all. simpl. by rewrite <- !app_assoc.
Qed.

End Dispatch.

Section LoopBody.

Context (rt : Runtime).

Lemma dispatches_instance_events n r failure labels stdoutURL stderrURL i :
  dispatches (instance_events n r failure labels stdoutURL stderrURL i) = [].
Proof. unfold instance_events. by destruct (Report r _ _ _ _). Qed.

Lemma dispatches_bind {A} (f : A -> list Event) (l : list A) :
  (forall x, dispatches (f x) = []) -> dispatches (l ≫= f) = [].
Proof.
  intros Hf. induction l as [|x l IH]; [done|].
  by rewrite bind_cons, dispatches_app, Hf, IH.
Qed.

Lemma dispatches_report_events failure labels stdoutURL stderrURL rs :
  dispatches (report_events rt failure labels stdoutURL stderrURL rs) = [].
Proof.
  unfold report_events. apply dispatches_bind. intros [n r].
  apply dispatches_bind. intros i. apply dispatches_instance_events.
Qed.

(** [processFailure] returns; it leaves the monitor and the clock alone, and
    its first event is the only one that counts as a dispatch. *)
Lemma processFailure_frame failure w :
  exists r w' evs,
    processFailure rt failure w = Done r w' /\
    mon w' = mon w /\ ticks w' = ticks w /\ polls w' = polls w /\
    ranges w <= ranges w' /\
    events w' = events w ++ LogReporting failure :: evs /\
    dispatches evs = [].
Proof.
  destruct (Logs (mesos (mon w)) failure) as [[stdoutURL stderrURL] [e|]] eqn:HL.
  { eexists _, _, _. split; [by eapply processFailure_no_logs|].
    simpl. eauto 10. }
  destruct (Upload (uploader (mon w)) failure stdoutURL stderrURL)
    as [[out err] [e|]] eqn:HU.
  { eexists _, _, _. split; [by eapply processFailure_no_upload|].
    simpl. eauto 10. }
  eexists _, _, _. split; [by eapply processFailure_reports|].
  simpl. repeat (split; [done || lia|]).
  apply dispatches_report_events.
Qed.

(** The loop body of [Run] returns.  On a failure that is in the cache it
    does nothing.  Otherwise it records the failure, reads the clock once,
    and dispatches the failure if and only if [checkFailure] accepts it. *)
Lemma Run_body_spec failure first w c :
  recent (mon w) = Some c ->
  exists w' evs,
    Run_body rt first failure w = Done tt w' /\
    events w' = events w ++ evs /\
    polls w' = polls w /\ ranges w <= ranges w' /\
    ((seen w (ID failure) <> 0%Z /\ w' = w /\ evs = []) \/
     (seen w (ID failure) = 0%Z /\
      mon w' = with_recent (Some (<[ID failure := Finished failure]> c)) (mon w) /\
      ticks w' = S (ticks w) /\
      dispatches evs = (if accepts rt failure first w then [ID failure] else []) /\
      (accepts rt failure first w = false -> evs = []))).
Proof.
  intros Hc. destruct (decide (seen w (ID failure) = 0%Z)) as [Hs|Hs].
  2:{ exists w, []. rewrite Run_body_cached, app_nil_r by done.
      split; [done|]. split; [done|]. split; [done|]. split; [lia|].
      by left. }
  unfold Run_body, bind. rewrite (checkFailure_unseen rt _ _ _ c Hc Hs).
  fold (accepts rt failure first w).
  destruct (accepts rt failure first w) eqn:Hacc.
  - set (w1 := tick _).
    destruct (processFailure_frame failure w1)
      as (r & w2 & evs & -> & Hmon & Hticks & Hpolls & Hranges & Hevs & Hdisp).
    destruct r as [e|].
    + eexists _, (LogReporting failure :: evs ++ [LogErrorReporting (ID failure) e]).
      split; [done|]. simpl. rewrite Hevs, Hmon, Hticks, Hpolls.
      split; [by rewrite <- app_assoc|]. split; [done|]. split; [done|].
      right. split; [done|]. split; [done|]. split; [done|].
      split; [|done]. f_equal. rewrite dispatches_app, Hdisp. done.
    + eexists _, (LogReporting failure :: evs).
      split; [done|]. rewrite Hevs, Hmon, Hticks, Hpolls.
      split; [done|]. split; [done|]. split; [done|].
      right. split; [done|]. split; [done|]. split; [done|].
      split; [|done]. simpl. by rewrite Hdisp.
  - eexists _, []. split; [done|]. simpl. rewrite app_nil_r.
    split; [done|]. split; [done|]. split; [lia|].
    right. done.
Qed.

End LoopBody.

(** ** One run *)

Section OneRun.

Context (rt : Runtime).

Lemma Run_init_nil w :
  recent (mon w) = None -> Run_init w = Done true (set_recent (Some ∅) w).
Proof. intros Hc. unfold Run_init, bind, get_monitor. by rewrite Hc. Qed.

Lemma Run_init_Some w c :
  recent (mon w) = Some c -> Run_init w = Done false w.
Proof. intros Hc. unfold Run_init, bind, get_monitor. by rewrite Hc. Qed.

(** A run whose poll fails returns the error at once. *)
Lemma Run_poll_failed w failures e :
  Failures (mesos (mon w)) (polls w) = (failures, Some e) ->
  Run rt w = Done (Some e) (polled w).
Proof. intros Hpoll. unfold Run, bind, mesos_Failures. by rewrite Hpoll. Qed.

(** A run whose poll succeeds is the creation of the cache, the loop over
    the batch and the purge, and returns [nil]. *)
Lemma Run_polled w failures :
  Failures (mesos (mon w)) (polls w) = (failures, None) ->
  Run rt w =
    (let* first := Run_init in
     for_each (Run_body rt first) failures ;; cleanupRecent rt ;; ret None)
    (polled w).
Proof. intros Hpoll. unfold Run, bind at 1, mesos_Failures. by rewrite Hpoll. Qed.



End OneRun.

(** ** Sequences of steps *)

Section Steps.

Context (rt : Runtime) (U : Failure -> Prop).

(** The loop body of [Run] returns only if the cache was created. *)
Lemma Run_body_Done_Some first failure w w' :
  Run_body rt first failure w = Done tt w' -> is_Some (recent (mon w)).
Proof.
  intros Hbody. destruct (recent (mon w)) as [c|] eqn:Hc; [by eexists|].
  exfalso. unfold Run_body, bind in Hbody.
  rewrite (checkFailure_nil rt _ _ _ Hc) in Hbody. done.
Qed.

(** What every step does: the configuration stays, the clock is read or
    not, events are only added, and a cache once created stays. *)
Lemma op_frame w w' :
  op rt U w w' ->
  config w' = config w /\ ticks w <= ticks w' /\
  (exists evs, events w' = events w ++ evs) /\
  (is_Some (recent (mon w)) -> is_Some (recent (mon w'))).
Proof.
  assert (Hnil : forall w0 : World, exists evs, events w0 = events w0 ++ evs).
  { intros w0. exists []. by rewrite app_nil_r. }
  intros [w0 r w0' Hpoll|w0 first w0' Hinit|w0 first f w0' _ Hbody|w0 w0' Hclean].
  - unfold mesos_Failures in Hpoll. simplify_eq. simpl. auto.
  - destruct (recent (mon w0)) as [c|] eqn:Hc.
    + rewrite (Run_init_Some _ c Hc) in Hinit. simplify_eq. auto.
    + rewrite (Run_init_nil _ Hc) in Hinit. simplify_eq. simpl.
      split; [done|]. split; [done|]. split; [apply (Hnil w0)|by eexists].
  - destruct (Run_body_Done_Some _ _ _ _ Hbody) as [c Hc].
    destruct (Run_body_spec rt f first w0 c Hc)
      as (w1 & evs & Hrun & Hevs & _ & _ & Hcases).
    rewrite Hrun in Hbody. simplify_eq.
    destruct Hcases as [(_ & -> & _)|(_ & Hmon & Hticks & _)].
    + auto.
    + split; [unfold config; by rewrite Hmon|]. split; [lia|].
      split; [by exists evs|]. rewrite Hmon. by eexists.
  - destruct (recent (mon w0)) as [c|] eqn:Hc.
    + destruct (cleanupRecent_deletes_only_old rt w0 c Hc)
        as (c' & k & Hrun & _). rewrite Hrun in Hclean. simplify_eq. simpl.
      split; [done|]. split; [lia|]. split; [apply (Hnil w0)|by eexists].
    + rewrite (cleanupRecent_nil rt _ Hc) in Hclean. simplify_eq. simpl.
      split; [done|]. split; [done|]. split; [apply (Hnil w0)|done].
Qed.

Lemma ops_frame w w' :
  rtc (op rt U) w w' ->
  config w' = config w /\ ticks w <= ticks w' /\
  (is_Some (recent (mon w)) -> is_Some (recent (mon w'))).
Proof.
  induction 1 as [|w w1 w' Hop _ (Hcfg & Hticks & Hsome)]; [done|].
  destruct (op_frame _ _ Hop) as (Hcfg1 & Hticks1 & _ & Hsome1).
  split; [congruence|]. split; [lia|]. auto.
Qed.

End Steps.

Section Settled.

Context (rt : Runtime) (U : Failure -> Prop).

(** The four kinds of steps, by what they do to the cache, the clock and
    the events: nothing; the creation of the cache; the evaluation of a
    failure that passes the presence test; a purge. *)
Lemma op_inv w w' :
  op rt U w w' ->
  (recent (mon w') = recent (mon w) /\ ticks w' = ticks w /\
   events w' = events w) \/
  (recent (mon w) = None /\ recent (mon w') = Some ∅ /\
   ticks w' = ticks w /\ events w' = events w) \/
  (exists failure first c evs,
     U failure /\ recent (mon w) = Some c /\ seen w (ID failure) = 0%Z /\
     recent (mon w') = Some (<[ID failure := Finished failure]> c) /\
     ticks w' = S (ticks w) /\ events w' = events w ++ evs /\
     dispatches evs = if accepts rt failure first w then [ID failure] else []) \/
  (exists c c' k,
     recent (mon w) = Some c /\ recent (mon w') = Some c' /\
     ticks w' = k + ticks w /\ events w' = events w /\
     (forall n, c' !! n = None \/ c' !! n = c !! n) /\
     (forall n ts, c !! n = Some ts -> c' !! n = None ->
        exists j, j < k /\ (ts + timeout < clock rt (ticks w + j))%Z)).
Proof.
  intros [w0 r w0' Hpoll|w0 first w0' Hinit|w0 first f w0' Hf Hbody|w0 w0' Hclean].
  - unfold mesos_Failures in Hpoll. simplify_eq. by left.
  - destruct (recent (mon w0)) as [c|] eqn:Hc.
    + rewrite (Run_init_Some _ c Hc) in Hinit. simplify_eq. by left.
    + rewrite (Run_init_nil _ Hc) in Hinit. simplify_eq. right. by left.
  - destruct (Run_body_Done_Some rt _ _ _ _ Hbody) as [c Hc].
    destruct (Run_body_spec rt f first w0 c Hc)
      as (w1 & evs & Hrun & Hevs & _ & _ & Hcases).
    rewrite Hrun in Hbody. simplify_eq.
    destruct Hcases as [(_ & -> & _)|(Hs & Hmon & Hticks & Hdisp & _)].
    + by left.
    + right. right. left. exists f, first, c, evs. rewrite Hmon. done.
  - destruct (recent (mon w0)) as [c|] eqn:Hc.
    + destruct (cleanupRecent_deletes_only_old rt w0 c Hc)
        as (c' & k & Hrun & Hdel & Hwhy). rewrite Hrun in Hclean. simplify_eq.
      right. right. right. exists c, c', k. done.
    + rewrite (cleanupRecent_nil rt _ Hc) in Hclean. simplify_eq.
      left. simpl. by rewrite Hc.
Qed.

Lemma settled_same w f g :
  ID g = ID f -> Finished g = Finished f -> settled rt w f -> settled rt w g.
Proof. unfold settled. by intros -> ->. Qed.

(** A settled failure is rejected. *)
Lemma settled_rejected w g first :
  is_Some (recent (mon w)) -> settled rt w g ->
  exists w', checkFailure rt g first w = Done false w'.
Proof.
  intros [c Hc] Hset.
  destruct (decide (seen w (ID g) = 0%Z)) as [Hs|Hs].
  2:{ exists w. by apply checkFailure_cached. }
  eexists. rewrite (checkFailure_unseen rt _ _ _ c Hc Hs).
  destruct Hset as [(c0 & Hc0 & Hin & Hnz)|Hstale].
  - rewrite (seen_Some _ c0), Hin in Hs by done. done.
  - specialize (Hstale (ticks w) ltac:(lia)). apply Z.ltb_lt in Hstale.
    by rewrite Hstale.
Qed.

Lemma settled_not_accepted w g first :
  settled rt w g -> seen w (ID g) = 0%Z -> accepts rt g first w = false.
Proof.
  intros [(c0 & Hc0 & Hin & Hnz)|Hstale] Hs.
  - rewrite (seen_Some _ c0), Hin in Hs by done. done.
  - specialize (Hstale (ticks w) ltac:(lia)). apply Z.ltb_lt in Hstale.
    unfold accepts. by rewrite Hstale.
Qed.

(** Once settled, always settled: while the entry is in the cache the
    failure is not recorded anew, and the purge removes the entry only when
    the failure is older than [timeout], hence than [timeout / 2], for
    good. *)
Lemma op_settled w w' g :
  clock_monotone rt -> op rt U w w' -> settled rt w g -> settled rt w' g.
Proof.
  intros Hmono Hop Hset.
  destruct (op_inv _ _ Hop)
    as [(Hrec & Hticks & _)|[(Hnil & Hrec & Hticks & _)|
        [(f & first & c & evs & _ & Hc & Hs & Hrec & Hticks & _)|
         (c & c' & k & Hc & Hrec & Hticks & _ & Hdel & Hwhy)]]];
    destruct Hset as [(c0 & Hc0 & Hin & Hnz)|Hstale];
    try (right; intros k' Hk'; apply Hstale; lia).
  - left. exists c0. by rewrite Hrec.
  - congruence.
  - left. eexists. split; [done|]. split; [|done].
    rewrite lookup_insert_ne; [congruence|].
    intros Hid. rewrite (seen_Some _ c0), Hid, Hin in Hs by done. done.
  - assert (c0 = c) as -> by congruence.
    destruct (Hdel (ID g)) as [Hgone|Hsame].
    + right. intros k' Hk'.
      destruct (Hwhy _ _ Hin Hgone) as (j & Hj & Hold).
      pose proof (Hmono (ticks w + j) k' ltac:(lia)).
      pose proof timeout_value. pose proof half_timeout_value. lia.
    + left. exists c'. split; [done|]. split; [congruence|done].
Qed.

Lemma op_cache_from w w' :
  op rt U w w' -> cache_from U w -> cache_from U w'.
Proof.
  intros Hop Hfrom.
  destruct (op_inv _ _ Hop)
    as [(Hrec & _)|[(Hnil & Hrec & _)|
        [(f & first & c & evs & Hf & Hc & Hs & Hrec & _)|
         (c & c' & k & Hc & Hrec & _ & _ & Hdel & _)]]];
    intros c1 n ts Hc1 Hn.
  - apply (Hfrom c1); [congruence|done].
  - rewrite Hrec in Hc1. by simplify_eq.
  - rewrite Hrec in Hc1. simplify_eq.
    rewrite lookup_insert in Hn. case_decide; [|by eapply Hfrom].
    simplify_eq. by exists f.
  - rewrite Hrec in Hc1. simplify_eq.
    destruct (Hdel n) as [Hgone|Hsame]; [congruence|].
    apply (Hfrom c); [done|congruence].
Qed.

(** The evaluation of a failure settles it. *)
Lemma Run_body_settles first failure w w' :
  clock_past_zero rt -> stable_IDs U -> cache_from U w -> U failure ->
  Run_body rt first failure w = Done tt w' ->
  settled rt w' failure.
Proof.
  intros Hpast Hstable Hfrom Hf Hbody.
  destruct (Run_body_Done_Some rt _ _ _ _ Hbody) as [c Hc].
  destruct (Run_body_spec rt failure first w c Hc)
    as (w1 & evs & Hrun & _ & _ & _ & Hcases).
  rewrite Hrun in Hbody. simplify_eq.
  destruct Hcases as [(Hs & -> & _)|(Hs & Hmon & _)].
  - rewrite (seen_Some _ c) in Hs by done.
    destruct (c !! ID failure) as [ts|] eqn:Hts; [|done]. simpl in Hs.
    destruct (Hfrom c _ _ Hc Hts) as (g & Hg & Hid & <-).
    rewrite (Hstable g failure Hg Hf Hid) in Hs, Hts. left. by exists c.
  - destruct (decide (Finished failure = 0%Z)) as [Hz|Hnz].
    + right. intros k _. rewrite Hz. apply Hpast.
    + left. eexists. rewrite Hmon. split; [done|].
      by rewrite lookup_insert_eq.
Qed.

End Settled.

Section Life.

Context (rt : Runtime) (U : Failure -> Prop).

Lemma config_mesos w w' : config w' = config w -> mesos (mon w') = mesos (mon w).
Proof. intros H. apply (f_equal mesos) in H. exact H. Qed.

(** The loop of [Run] returns, and is a sequence of steps. *)
Lemma Run_loop_ops first failures : forall w,
  (forall failure, failure ∈ failures -> U failure) ->
  is_Some (recent (mon w)) ->
  exists w', for_each (Run_body rt first) failures w = Done tt w' /\
             rtc (op rt U) w w'.
Proof.
  induction failures as [|f fs IH]; intros w HU [c Hc].
  { by exists w. }
  destruct (Run_body_spec rt f first w c Hc) as (w1 & evs & Hrun & _).
  assert (Hop : op rt U w w1).
  { eapply op_body; [|exact Hrun]. apply HU. left. }
  destruct (IH w1) as (w' & Hloop & Hops).
  { intros g Hg. apply HU. by right. }
  { eapply op_frame; [exact Hop|by eexists]. }
  exists w'. rewrite for_each_cons, Hrun. split; [done|].
  by eapply rtc_l.
Qed.

(** [Run] returns, with the error of the poll or [nil], and is a sequence
    of steps. *)
Lemma Run_ops w :
  (forall failure, failure ∈ (Failures (mesos (mon w)) (polls w)).1 -> U failure) ->
  exists w', Run rt w = Done (Failures (mesos (mon w)) (polls w)).2 w' /\
             rtc (op rt U) w w'.
Proof.
  intros HU.
  destruct (Failures (mesos (mon w)) (polls w)) as [failures [e|]] eqn:Hpoll.
  { exists (polled w). split.
    - unfold Run, bind, mesos_Failures. by rewrite Hpoll.
    - apply rtc_once. by eapply op_poll. }
  rewrite (Run_polled rt w failures Hpoll). unfold bind at 1.
  assert (exists first w0, Run_init (polled w) = Done first w0 /\
            op rt U (polled w) w0 /\ is_Some (recent (mon w0)))
    as (first & w0 & Hinit & Hop0 & Hsome).
  { destruct (recent (mon (polled w))) as [c|] eqn:Hc.
    - exists false, (polled w). rewrite (Run_init_Some _ c Hc).
      split; [done|]. split; [|by rewrite Hc].
      eapply op_init. by apply (Run_init_Some _ c).
    - eexists true, _. rewrite (Run_init_nil _ Hc).
      split; [done|]. split; [|by eexists].
      eapply op_init. by apply Run_init_nil. }
  rewrite Hinit.
  destruct (Run_loop_ops first failures w0 HU Hsome) as (w1 & Hloop & Hops1).
  unfold bind at 1. rewrite Hloop.
  assert (exists w', cleanupRecent rt w1 = Done tt w') as [w' Hclean].
  { destruct (recent (mon w1)) as [c|] eqn:Hc.
    - destruct (cleanupRecent_deletes_only_old rt w1 c Hc) as (c' & k & -> & _).
      by eexists.
    - rewrite (cleanupRecent_nil rt _ Hc). by eexists. }
  exists w'. unfold bind. rewrite Hclean. split; [done|].
  eapply rtc_l; [by eapply op_poll|].
  eapply rtc_l; [exact Hop0|].
  eapply rtc_trans; [exact Hops1|].
  apply rtc_once. by apply op_cleanup.
Qed.

(** The life of the process is a sequence of steps on the failures the
    cluster returns. *)
Lemma Runs_ops n : forall w,
  (forall failure, polled_by (mesos (mon w)) failure -> U failure) ->
  exists rs w', Runs rt n w = Done rs w' /\ rtc (op rt U) w w'.
Proof.
  induction n as [|n IH]; intros w HU.
  { by exists [], w. }
  destruct (Run_ops w) as (w1 & Hrun & Hops1).
  { intros f Hf. apply HU. by eexists. }
  destruct (IH w1) as (rs & w' & Hruns & Hops).
  { intros f Hf. apply HU.
    by rewrite <- (config_mesos w w1 (proj1 (ops_frame rt U _ _ Hops1))). }
  eexists _, w'. simpl. unfold bind. rewrite Hrun, Hruns.
  split; [done|]. by eapply rtc_trans.
Qed.

End Life.

Section AtMostOnce.

Context (rt : Runtime) (U : Failure -> Prop).
Context (Hmono : clock_monotone rt) (Hpast : clock_past_zero rt).
Context (Hstable : stable_IDs U).

Lemma ops_settled w w' g :
  rtc (op rt U) w w' -> settled rt w g -> settled rt w' g.
Proof. induction 1; [done|]. eauto using op_settled. Qed.

Lemma ops_cache_from w w' :
  rtc (op rt U) w w' -> cache_from U w -> cache_from U w'.
Proof. induction 1; [done|]. eauto using op_cache_from. Qed.

Lemma op_dispatched_once w w' :
  op rt U w w' -> dispatched_once rt U w -> dispatched_once rt U w'.
Proof.
  intros Hop (Hfrom & Hnd & Hset).
  split; [by eapply op_cache_from|].
  assert (Hkeep : forall g, settled rt w g -> settled rt w' g).
  { intros g. by apply (op_settled rt U). }
  destruct (op_inv _ _ _ _ Hop)
    as [(_ & _ & Hev)|[(_ & _ & _ & Hev)|
        [(f & first & c & evs & Hf & Hc & Hs & Hrec & Hticks & Hev & Hdisp)|
         (c & c' & k & _ & _ & _ & Hev & _)]]];
    try (rewrite Hev; split; [done|]; intros g Hg Hin; by auto).
  rewrite Hev, dispatches_app, Hdisp.
  destruct (accepts rt f first w) eqn:Hacc.
  2:{ rewrite app_nil_r. split; [done|]. intros g Hg Hin. by auto. }
  assert (Hnew : ID f ∉ dispatches (events w)).
  { intros Hin. specialize (Hset f Hf Hin).
    rewrite (settled_not_accepted rt _ _ first Hset Hs) in Hacc. done. }
  split.
  { apply NoDup_app. split; [done|]. split; [|apply NoDup_singleton].
    intros id Hid ->%list_elem_of_singleton. done. }
  intros g Hg [Hin|Hid%list_elem_of_singleton]%elem_of_app; [by auto|].
  apply (settled_same rt _ f); [done|by apply Hstable|].
  destruct (decide (Finished f = 0%Z)) as [Hz|Hnz].
  - right. intros k' _. rewrite Hz. apply Hpast.
  - left. eexists. split; [done|]. by rewrite lookup_insert_eq.
Qed.

Lemma ops_dispatched_once w w' :
  rtc (op rt U) w w' -> dispatched_once rt U w -> dispatched_once rt U w'.
Proof. induction 1; [done|]. eauto using op_dispatched_once. Qed.

(** A world whose cache is not yet created and that has no event. *)
Lemma fresh_dispatched_once w :
  recent (mon w) = None -> events w = [] -> dispatched_once rt U w.
Proof.
  intros Hnil Hev. split; [|split].
  - intros c n ts Hc. congruence.
  - rewrite Hev. apply NoDup_nil_2.
  - intros g _. rewrite Hev. by intros ?%elem_of_nil.
Qed.

(** What was evaluated once is rejected ever after. *)
Lemma evaluated_then_rejected w1 first f w2 w3 g first' :
  cache_from U w1 ->
  U f -> Run_body rt first f w1 = Done tt w2 ->
  rtc (op rt U) w2 w3 ->
  U g -> ID g = ID f ->
  exists w4, checkFailure rt g first' w3 = Done false w4.
Proof.
  intros Hfrom Hf Hbody Hops Hg Hid.
  apply settled_rejected.
  - eapply (ops_frame rt U); [exact Hops|].
    eapply (op_frame rt U); [exact (op_body rt U w1 first f w2 Hf Hbody)|].
    by eapply Run_body_Done_Some.
  - apply (settled_same rt _ f); [done|by apply Hstable|].
    eapply ops_settled; [exact Hops|].
    by eapply Run_body_settles.
Qed.

End AtMostOnce.

(** ** The life of the process *)

Section Lifetime.

Context (rt : Runtime).

(** C1: on a clock that does not run backwards and reads later than thirty
    seconds past the zero time, and with a cluster that reports one
    [Finished] timestamp per ID, a process that starts without a cache
    dispatches no ID twice, however often the ID is polled, in one batch or
    in many runs: the runs return, they are sequences of steps of the
    monitor, no sequence of steps dispatches an ID twice, and once a failure
    was evaluated, every later evaluation of its ID is rejected, the cache
    entry still there or purged. *)
Theorem each_ID_is_accepted_at_most_once w0 :
  clock_monotone rt -> clock_past_zero rt ->
  stable_IDs (polled_by (mesos (mon w0))) ->
  recent (mon w0) = None -> events w0 = [] ->
  (forall n, exists rs w,
     Runs rt n w0 = Done rs w /\
     rtc (op rt (polled_by (mesos (mon w0)))) w0 w) /\
  (forall w, rtc (op rt (polled_by (mesos (mon w0)))) w0 w ->
     NoDup (dispatches (events w))) /\
  (forall w1 first failure w2 w3 again first',
     rtc (op rt (polled_by (mesos (mon w0)))) w0 w1 ->
     polled_by (mesos (mon w0)) failure ->
     Run_body rt first failure w1 = Done tt w2 ->
     rtc (op rt (polled_by (mesos (mon w0)))) w2 w3 ->
     polled_by (mesos (mon w0)) again ->
     ID again = ID failure ->
     exists w4, checkFailure rt again first' w3 = Done false w4).
Proof.
  intros Hmono Hpast Hstable Hnil Hev.
  pose proof (fresh_dispatched_once rt (polled_by (mesos (mon w0))) w0 Hnil Hev)
    as Hfresh.
  split; [|split].
  - intros n. by apply Runs_ops.
  - intros w Hops.
    by destruct (ops_dispatched_once rt _ Hmono Hpast Hstable _ _ Hops Hfresh)
      as (_ & Hnd & _).
  - intros w1 first failure w2 w3 again first' Hops1 Hf Hbody Hops3 Hg Hid.
    apply (evaluated_then_rejected rt _ Hmono Hpast Hstable
             w1 first failure w2 w3 again first'); try done.
    eapply ops_cache_from; [exact Hops1|]. apply Hfresh.
Qed.

(** An entry with a non-zero timestamp stays in the cache as long as the
    clock reads at most [timeout] past it. *)
Lemma op_keeps_entry U id T w w' :
  T <> 0%Z ->
  op rt U w w' ->
  (forall k, ticks w <= k < ticks w' -> (clock rt k <= T + timeout)%Z) ->
  (exists c, recent (mon w) = Some c /\ c !! id = Some T) ->
  exists c', recent (mon w') = Some c' /\ c' !! id = Some T.
Proof.
  intros Hnz Hop Hclock (c0 & Hc0 & Hin).
  destruct (op_inv _ _ _ _ Hop)
    as [(Hrec & _)|[(Hnil & _)|
        [(f & first & c & evs & _ & Hc & Hs & Hrec & _)|
         (c & c' & k & Hc & Hrec & Hticks & _ & Hdel & Hwhy)]]].
  - exists c0. by rewrite Hrec.
  - congruence.
  - eexists. split; [done|]. assert (c = c0) as -> by congruence.
    rewrite lookup_insert_ne; [done|].
    intros Hid. by rewrite (seen_Some _ c0), Hid, Hin in Hs.
  - exists c'. split; [done|]. assert (c = c0) as -> by congruence.
    destruct (Hdel id) as [Hgone|Hsame]; [|congruence].
    destruct (Hwhy _ _ Hin Hgone) as (j & Hj & Hold).
    specialize (Hclock (ticks w + j) ltac:(lia)). lia.
Qed.

Lemma ops_keep_entry U id T w w' :
  T <> 0%Z ->
  rtc (op rt U) w w' ->
  (forall k, ticks w <= k < ticks w' -> (clock rt k <= T + timeout)%Z) ->
  (exists c, recent (mon w) = Some c /\ c !! id = Some T) ->
  exists c', recent (mon w') = Some c' /\ c' !! id = Some T.
Proof.
  intros Hnz Hops. induction Hops as [|w w1 w' Hop Hops IH]; [done|].
  intros Hclock Hin.
  destruct (op_frame rt U _ _ Hop) as (_ & Hticks1 & _).
  destruct (ops_frame rt U _ _ Hops) as (_ & Hticks & _).
  apply IH.
  - intros k Hk. apply Hclock. lia.
  - eapply op_keeps_entry; [done|exact Hop| |done].
    intros k Hk. apply Hclock. lia.
Qed.

(** C9: a failure accepted on a reading [A] of the clock (a reading later
    than thirty seconds past the zero time) has its ID and its [Finished]
    timestamp in the cache after every sequence of steps of the monitor on
    which the clock reads at most [A + timeout / 2]: until then no purge
    removes the entry, and every evaluation of the ID returns at the
    presence test. *)
Theorem accepted_ID_stays_cached_for_half_timeout U failure first w wa w1 w2 :
  (timeout / 2 < clock rt (ticks w))%Z ->
  checkFailure rt failure first w = Done true wa ->
  Run_body rt first failure w = Done tt w1 ->
  rtc (op rt U) w1 w2 ->
  (forall k, ticks w1 <= k < ticks w2 ->
     (clock rt k <= clock rt (ticks w) + timeout / 2)%Z) ->
  exists c2,
    recent (mon w2) = Some c2 /\
    c2 !! ID failure = Some (Finished failure) /\
    forall again first',
      ID again = ID failure ->
      checkFailure rt again first' w2 = Done false w2.
Proof.
  intros Hpast Hcheck Hbody Hops Hclock.
  destruct (Run_body_Done_Some rt _ _ _ _ Hbody) as [c Hc].
  destruct (decide (seen w (ID failure) = 0%Z)) as [Hs|Hs].
  2:{ by rewrite checkFailure_cached in Hcheck. }
  rewrite (checkFailure_unseen rt _ _ _ c Hc Hs) in Hcheck.
  injection Hcheck as Hacc _.
  apply andb_true_iff in Hacc as [Hfresh _].
  apply negb_true_iff, Z.ltb_ge in Hfresh.
  assert (Hnz : Finished failure <> 0%Z) by lia.
  destruct (Run_body_spec rt failure first w c Hc)
    as (w1' & evs & Hrun & _ & _ & _ & Hcases).
  rewrite Hrun in Hbody. simplify_eq.
  destruct Hcases as [(Hs' & _)|(_ & Hmon & _)]; [done|].
  destruct (ops_keep_entry U (ID failure) (Finished failure) w1 w2 Hnz Hops)
    as (c2 & Hc2 & Hin).
  { intros k Hk. specialize (Hclock k Hk).
    pose proof timeout_value. pose proof half_timeout_value. lia. }
  { eexists. rewrite Hmon. split; [done|]. by rewrite lookup_insert_eq. }
  exists c2. split; [done|]. split; [done|].
  intros again first' Hid. apply checkFailure_cached.
  by rewrite (seen_Some _ c2), Hid, Hin.
Qed.

End Lifetime.

(** ** Errors of the collaborators *)

Section Errors.

Context (rt : Runtime).



End Errors.

(** ** What the reporters return does not matter *)

Section Reports.

Context (rt : Runtime).



Lemma report_calls_report_events failure labels stdoutURL stderrURL rs :
  report_calls (report_events rt failure labels stdoutURL stderrURL rs) =
    '(n, _) ← rs;
    i ← Instances rt labels n;
    [(n, i, failure, (stdoutURL, stderrURL))].
Proof.
  unfold report_events.
  induction rs as [|[n r] rs IH]; [done|].
  rewrite !bind_cons, report_calls_app, IH. f_equal.
  induction (Instances rt labels n) as [|i insts IHi]; [done|].
  rewrite !bind_cons, report_calls_app, IHi. f_equal.
  unfold instance_events. by destruct (Report r _ _ _ _).
Qed.



End Reports.

Section SameButReports.

Context (rt : Runtime).














End SameButReports.

Section ReportErrors.

Context (rt : Runtime).


End ReportErrors.

(** * Further properties *)

(** ** [checkFailure] and the loop body of [Run] *)

Section MoreOnEvaluation.

Context (rt : Runtime).

(** On a created cache [checkFailure] returns, and adds no event. *)
Lemma checkFailure_returns failure first w c :
  recent (mon w) = Some c ->
  exists b wa,
    checkFailure rt failure first w = Done b wa /\ events wa = events w.
Proof.
  intros Hc. destruct (decide (seen w (ID failure) = 0%Z)) as [Hs|Hs].
  - eexists _, _. by split; [apply (checkFailure_unseen rt _ _ _ c)|].
  - exists false, w. by rewrite checkFailure_cached.
Qed.

(** X1: [checkFailure] touches nothing but the entry of the ID it is given.
    It logs nothing and calls no collaborator, reads the clock at most once,
    leaves the entries of all other IDs as they are, and never overwrites
    an entry whose timestamp is not the zero time. *)
Theorem checkFailure_touches_only_its_entry failure first w c :
  recent (mon w) = Some c ->
  exists b w' c',
    checkFailure rt failure first w = Done b w' /\
    recent (mon w') = Some c' /\
    config w' = config w /\ events w' = events w /\
    polls w' = polls w /\ ranges w' = ranges w /\
    ticks w <= ticks w' <= S (ticks w) /\
    (forall n, n <> ID failure -> c' !! n = c !! n) /\
    (forall n ts, c !! n = Some ts -> ts <> 0%Z -> c' !! n = Some ts).
Proof.
  intros Hc. destruct (decide (seen w (ID failure) = 0%Z)) as [Hs|Hs].
  - eexists _, _, _. split; [by apply checkFailure_unseen|].
    simpl. split; [done|]. split; [done|]. split; [done|]. split; [done|].
    split; [done|]. split; [lia|]. split.
    + intros n Hn. by rewrite lookup_insert_ne.
    + intros n ts Hn Hnz. rewrite lookup_insert_ne; [done|].
      intros <-. by rewrite (seen_Some _ c), Hn in Hs.
  - exists false, w, c. rewrite checkFailure_cached by done.
    repeat (split; [done || lia|]). done.
Qed.

(** X2: [checkFailure] accepts a failure if and only if the cache holds no
    non-zero timestamp for its ID, the clock reads at most [timeout / 2]
    past its [Finished] timestamp, and the run is not the first one.  A
    failure exactly [timeout / 2] old is accepted, and so is one whose
    [Finished] timestamp lies ahead of the clock. *)
Theorem checkFailure_accepts_iff failure first w c :
  recent (mon w) = Some c ->
  (exists w', checkFailure rt failure first w = Done true w') <->
  seen w (ID failure) = 0%Z /\
  (clock rt (ticks w) <= Finished failure + timeout / 2)%Z /\
  first = false.
Proof.
  intros Hc. destruct (decide (seen w (ID failure) = 0%Z)) as [Hs|Hs].
  - rewrite (checkFailure_unseen rt _ _ _ c Hc Hs). split.
    + intros [w' [= Hacc _]]. apply andb_true_iff in Hacc as [Hfresh Hfirst].
      apply negb_true_iff, Z.ltb_ge in Hfresh. apply negb_true_iff in Hfirst.
      done.
    + intros (_ & Hfresh & ->). apply Z.ltb_ge in Hfresh. rewrite Hfresh.
      by eexists.
  - rewrite checkFailure_cached by done. split; [by intros [w' [=]]|].
    by intros [? _].
Qed.

(** X3: the loop body of [Run] hands a failure to [processFailure] exactly
    when [checkFailure] accepts it: then the events it adds begin with the
    line logged for the failure and the resolution of its log URLs, and the
    failure is the only one dispatched; when [checkFailure] rejects, the
    loop body is just [checkFailure] and adds no event. *)
Theorem Run_body_dispatches_what_is_accepted failure first w c :
  recent (mon w) = Some c ->
  exists b wa w',
    checkFailure rt failure first w = Done b wa /\
    Run_body rt first failure w = Done tt w' /\
    if b then
      mon w' = mon wa /\ ticks w' = ticks wa /\
      dispatches (events_since w w') = [ID failure] /\
      exists evs,
        events w' = events w ++ LogReporting failure :: CallLogs failure :: evs
    else w' = wa /\ events w' = events w.
Proof.
  intros Hc.
  destruct (checkFailure_returns failure first w c Hc)
    as (b & wa & Hcheck & Hev).
  exists b, wa. unfold Run_body, bind. rewrite Hcheck.
  destruct b; [|by exists wa].
  destruct (processFailure_frame rt failure wa)
    as (r & w2 & evs & Hrun & Hmon & Hticks & _ & _ & Hevs & Hdisp).
  assert (exists evs', evs = CallLogs failure :: evs') as [evs' ->].
  { destruct (Logs (mesos (mon wa)) failure)
      as [[stdoutURL stderrURL] [e|]] eqn:HL.
    { rewrite (processFailure_no_logs rt _ _ _ _ _ HL) in Hrun.
      injection Hrun as _ <-. simpl in Hevs.
      apply app_inv_head in Hevs. injection Hevs as <-. by eexists. }
    destruct (Upload (uploader (mon wa)) failure stdoutURL stderrURL)
      as [[out err] [e|]] eqn:HU.
    { rewrite (processFailure_no_upload rt _ _ _ _ _ _ _ HL HU) in Hrun.
      injection Hrun as _ <-. simpl in Hevs.
      apply app_inv_head in Hevs. injection Hevs as <-. by eexists. }
    rewrite (processFailure_reports rt _ _ _ _ _ _ HL HU) in Hrun.
    injection Hrun as _ <-. simpl in Hevs.
    apply app_inv_head in Hevs. injection Hevs as <-. by eexists. }
  rewrite Hrun. rewrite Hev in Hevs.
  destruct r as [e|].
  - eexists. split; [done|]. split; [done|]. split; [done|]. split; [done|].
    split.
    + unfold events_since, log_Printf, emitted. cbn [events].
      rewrite Hevs, <- app_assoc, drop_app_length.
      rewrite dispatches_app. simpl in *. by rewrite Hdisp.
    + eexists. unfold log_Printf, emitted. cbn [events].
      rewrite Hevs, <- app_assoc. done.
  - exists w2. split; [done|]. split; [done|]. split; [done|]. split; [done|].
    split.
    + unfold events_since. rewrite Hevs, drop_app_length.
      simpl in *. by rewrite Hdisp.
    + by eexists.
Qed.

(** X4: a batch whose failures all have a non-zero timestamp in the cache
    leaves no trace: the loop of [Run] returns the world it started from,
    without reading the clock, and the run is the poll and the purge. *)
Theorem repolled_batch_changes_nothing failures w c :
  recent (mon w) = Some c ->
  Failures (mesos (mon w)) (polls w) = (failures, None) ->
  (forall failure, failure ∈ failures -> seen w (ID failure) <> 0%Z) ->
  (forall first, for_each (Run_body rt first) failures w = Done tt w) /\
  exists w',
    cleanupRecent rt (polled w) = Done tt w' /\
    Run rt w = Done None w' /\
    events w' = events w.
Proof.
  intros Hc Hpoll Hseen.
  assert (Hloop : forall (fs : list Failure) first (w0 : World),
            (forall failure, failure ∈ fs -> seen w0 (ID failure) <> 0%Z) ->
            for_each (Run_body rt first) fs w0 = Done tt w0).
  { intros fs first w0. induction fs as [|f fs IH]; intros Hall; [done|].
    rewrite for_each_cons, Run_body_cached by (apply Hall; left).
    apply IH. intros g Hg. apply Hall. by right. }
  split; [by auto|].
  destruct (cleanupRecent_deletes_only_old rt (polled w) c Hc)
    as (c' & k & Hclean & _).
  eexists. split; [exact Hclean|]. split; [|done].
  rewrite (Run_polled rt w failures Hpoll). unfold bind at 1.
  rewrite (Run_init_Some (polled w) c Hc). unfold bind at 1.
  rewrite (Hloop failures false (polled w)) by (intros f Hf; by apply Hseen).
  unfold bind. by rewrite Hclean.
Qed.

End MoreOnEvaluation.

(** ** The purge, and runs that return *)

Section MoreOnRuns.

Context (rt : Runtime).

Lemma cleanupRecent_empty w :
  recent (mon w) = Some ∅ -> cleanupRecent rt w = Done tt (ranged w).
Proof.
  intros Hc. rewrite cleanupRecent_unfold. unfold bind, range_map.
  rewrite Hc. simpl. rewrite dom_empty_L.
  replace (omap _ _) with (@nil (string * Time)); [done|].
  symmetry. induction (range_keys rt (ranges w) ∅) as [|k ks IH]; [done|].
  simpl. by rewrite lookup_empty.
Qed.

(** [cleanupRecent] returns, adds no event, and keeps a created cache
    created. *)
Lemma cleanupRecent_returns w :
  exists w',
    cleanupRecent rt w = Done tt w' /\
    events w' = events w /\
    (is_Some (recent (mon w)) -> is_Some (recent (mon w'))).
Proof.
  destruct (recent (mon w)) as [c|] eqn:Hc.
  - destruct (cleanupRecent_deletes_only_old rt w c Hc) as (c' & k & Hrun & _).
    eexists. split; [exact Hrun|]. split; [done|]. intros _. by eexists.
  - exists (ranged w). rewrite (cleanupRecent_nil rt w Hc).
    split; [done|]. split; [done|]. simpl. by rewrite Hc.
Qed.

(** X5: [cleanupRecent] only removes.  In whatever order it visits the
    cache, it returns, logs nothing, leaves the configuration alone, and the
    cache it leaves is contained in the cache it found; a cache not yet
    created is not created, and the clock is then not read. *)
Theorem cleanupRecent_only_removes w :
  exists w',
    cleanupRecent rt w = Done tt w' /\
    config w' = config w /\ events w' = events w /\ polls w' = polls w /\
    ranges w' = S (ranges w) /\ ticks w <= ticks w' /\
    match recent (mon w) with
    | None => recent (mon w') = None /\ ticks w' = ticks w
    | Some c => exists c', recent (mon w') = Some c' /\ c' ⊆ c
    end.
Proof.
  destruct (recent (mon w)) as [c|] eqn:Hc.
  - destruct (cleanupRecent_deletes_only_old rt w c Hc)
      as (c' & k & Hrun & Hdel & _).
    eexists. split; [exact Hrun|]. simpl.
    split; [done|]. split; [done|]. split; [done|]. split; [done|].
    split; [lia|]. exists c'. split; [done|].
    apply map_subseteq_spec. intros n ts Hn.
    destruct (Hdel n) as [Hgone|Hsame]; congruence.
  - exists (ranged w). rewrite (cleanupRecent_nil rt w Hc). simpl.
    rewrite Hc. done.
Qed.

(** X6: when every entry is visited once and the clock does not run
    backwards, [cleanupRecent] leaves no entry that was older than
    [timeout] when the purge began: the cache cannot keep growing with IDs
    of long-finished failures. *)
Theorem purge_leaves_no_old_entry w c :
  range_fair rt -> clock_monotone rt ->
  recent (mon w) = Some c ->
  exists w' c',
    cleanupRecent rt w = Done tt w' /\
    recent (mon w') = Some c' /\
    forall n ts, c' !! n = Some ts ->
      c !! n = Some ts /\ (clock rt (ticks w) <= ts + timeout)%Z.
Proof.
  intros Hfair Hmono Hc. rewrite cleanupRecent_unfold. unfold bind, range_map.
  rewrite Hc. simpl.
  destruct (range_fair_entries rt c (ranges w) Hfair) as (Hnd & Hlen & Hks).
  set (ks := range_keys rt (ranges w) (dom c)) in *.
  set (l := omap _ ks).
  assert (Hfst : l.*1 = ks).
  { apply range_entries_fst. intros n. apply Hks. }
  destruct (cleanup_loop rt l (ranged w) c Hc)
    as (c' & Hrun & _ & Hdel & _ & Hin).
  eexists _, c'. split; [exact Hrun|]. split; [done|].
  intros n ts Hn.
  assert (Hcn : c !! n = Some ts).
  { destruct (Hdel n) as [Hgone|Hsame]; congruence. }
  split; [done|].
  assert (n ∈ l.*1) as Hnl by (rewrite Hfst; apply Hks; eauto).
  apply list_elem_of_fmap in Hnl as ([n' ts'] & Heq & Hnl).
  simpl in Heq. subst n'.
  apply list_elem_of_lookup in Hnl as [i Hi].
  pose proof (range_entries_elem c ks _ _ (list_elem_of_lookup_2 _ _ _ Hi))
    as Hts'.
  rewrite Hcn in Hts'. injection Hts' as <-.
  specialize (Hin ltac:(by rewrite Hfst) i n ts Hi). simpl in Hin.
  rewrite Hn in Hin.
  destruct (Z.ltb_spec (ts + timeout) (clock rt (ticks w + i))) as [|Hle];
    [done|].
  pose proof (Hmono (ticks w) (ticks w + i) ltac:(lia)). lia.
Qed.

(** X7: [Run] never panics.  [checkFailure] writes to the cache, and on a
    monitor as [NewMonitor] builds it, whose cache is [nil], that write
    panics; [Run] creates the cache first.  From every world [Run] returns,
    with the error of the poll or with [nil]; after a poll that succeeded
    the cache exists, so the flag [first] is false in every later run. *)
Theorem Run_never_panics :
  (forall name cluster up reporters failure first w,
     mon w = NewMonitor name cluster up reporters ->
     checkFailure rt failure first w =
       Panic "assignment to entry in nil map") /\
  (forall w, exists w',
     Run rt w = Done (Failures (mesos (mon w)) (polls w)).2 w' /\
     config w' = config w /\
     ((Failures (mesos (mon w)) (polls w)).2 = None ->
      is_Some (recent (mon w')) /\ Run_init w' = Done false w')) /\
  (forall n w, exists rs w', Runs rt n w = Done rs w' /\ length rs = n).
Proof.
  assert (HRun : forall w, exists w',
     Run rt w = Done (Failures (mesos (mon w)) (polls w)).2 w' /\
     config w' = config w /\
     ((Failures (mesos (mon w)) (polls w)).2 = None ->
      is_Some (recent (mon w')))).
  { intros w.
    destruct (Run_ops rt (fun _ => True) w ltac:(done)) as (w' & Hrun & Hops).
    exists w'. split; [done|].
    destruct (ops_frame rt _ _ _ Hops) as (Hcfg & _ & _).
    split; [done|]. intros Hok.
    destruct (Failures (mesos (mon w)) (polls w)) as [failures err] eqn:Hpoll.
    simpl in Hok. subst err.
    rewrite (Run_polled rt w failures Hpoll) in Hrun. unfold bind at 1 in Hrun.
    assert (exists first w0, Run_init (polled w) = Done first w0 /\
              is_Some (recent (mon w0))) as (first & w0 & Hinit & Hsome).
    { destruct (recent (mon (polled w))) as [c|] eqn:Hc.
      - exists false, (polled w). rewrite (Run_init_Some _ c Hc).
        split; [done|]. by rewrite Hc.
      - eexists true, _. rewrite (Run_init_nil _ Hc). split; [done|].
        by eexists. }
    rewrite Hinit in Hrun. unfold bind at 1 in Hrun.
    destruct (Run_loop_ops rt (fun _ => True) first failures w0
                ltac:(done) Hsome) as (w1 & Hloop & Hops1).
    rewrite Hloop in Hrun. unfold bind in Hrun.
    destruct (ops_frame rt _ _ _ Hops1) as (_ & _ & Hsome1).
    destruct (cleanupRecent_returns w1) as (w2 & Hclean & _ & Hkeep).
    rewrite Hclean in Hrun. injection Hrun as <-.
    apply Hkeep, Hsome1, Hsome. }
  split; [|split].
  - intros name cluster up reporters failure first w Hmon.
    apply checkFailure_nil. by rewrite Hmon.
  - intros w. destruct (HRun w) as (w' & Hrun & Hcfg & Hsome).
    exists w'. split; [done|]. split; [done|]. intros Hok.
    destruct (Hsome Hok) as [c Hc]. split; [by eexists|].
    by apply (Run_init_Some _ c).
  - intros n. induction n as [|n IH]; intros w.
    + by exists [], w.
    + destruct (HRun w) as (w1 & Hrun & _).
      destruct (IH w1) as (rs & w' & Hruns & Hlen).
      eexists _, w'. simpl. unfold bind. rewrite Hrun, Hruns.
      split; [done|]. simpl. by rewrite Hlen.
Qed.

End MoreOnRuns.

(** ** The calls of a run *)

Section MoreOnCalls.

Context (rt : Runtime).

Lemma justified_config w1 w2 e :
  config w1 = config w2 ->
  justified rt (mon w1) e -> justified rt (mon w2) e.
Proof.
  intros Hcfg. unfold config in Hcfg.
  assert (Hname : name (mon w1) = name (mon w2))
    by exact (f_equal name Hcfg).
  assert (Hmesos : mesos (mon w1) = mesos (mon w2))
    by exact (f_equal mesos Hcfg).
  assert (Hup : uploader (mon w1) = uploader (mon w2))
    by exact (f_equal uploader Hcfg).
  assert (Hreps : reporters (mon w1) = reporters (mon w2))
    by exact (f_equal reporters Hcfg).
  destruct e; simpl; try done.
  - by rewrite Hmesos.
  - by rewrite Hname, Hmesos, Hup, Hreps.
Qed.

Lemma report_events_justified m failure stdoutURL stderrURL out err rs :
  Logs (mesos m) failure = (stdoutURL, stderrURL, None) ->
  Upload (uploader m) failure stdoutURL stderrURL = (out, err, None) ->
  (forall n r, (n, r) ∈ rs -> reporters m !! n = Some r) ->
  Forall (justified rt m)
    (report_events rt failure (NewLabels (name m) (Labels failure)) out err rs).
Proof.
  intros HL HU Hrs. apply Forall_forall. intros e.
  unfold report_events. rewrite list_elem_of_bind.
  intros ([n r] & He & Hnr). apply list_elem_of_bind in He as (i & He & Hi).
  unfold instance_events in He.
  assert (Hcall : justified rt m
            (CallReport n failure
               (NewConfigProvider (NewLabels (name m) (Labels failure)) n i)
               out err)).
  { simpl. exists stdoutURL, stderrURL. rewrite (Hrs n r Hnr).
    split; [done|]. split; [done|]. split; [by eexists|]. done. }
  apply elem_of_cons in He as [->|He]; [done|].
  destruct (Report r failure _ out err); [|by apply elem_of_nil in He].
  apply list_elem_of_singleton in He as ->. done.
Qed.

(** [processFailure] adds justified events only. *)
Lemma processFailure_justified failure w :
  exists r w' evs,
    processFailure rt failure w = Done r w' /\
    events w' = events w ++ evs /\
    Forall (justified rt (mon w)) evs.
Proof.
  destruct (Logs (mesos (mon w)) failure)
    as [[stdoutURL stderrURL] [e|]] eqn:HL.
  { eexists _, _, _.
    split; [exact (processFailure_no_logs rt _ _ _ _ _ HL)|].
    split; [done|]. by repeat constructor. }
  destruct (Upload (uploader (mon w)) failure stdoutURL stderrURL)
    as [[out err] [e|]] eqn:HU.
  { eexists _, _, _.
    split; [exact (processFailure_no_upload rt _ _ _ _ _ _ _ HL HU)|].
    split; [done|]. by repeat constructor. }
  eexists _, _, _.
  split; [exact (processFailure_reports rt _ _ _ _ _ _ HL HU)|].
  split; [done|].
  apply Forall_app. split; [by repeat constructor|].
  apply (report_events_justified _ _ stdoutURL stderrURL); [done|done|].
  intros n r Hnr. by eapply range_entries_elem.
Qed.

(** The loop of [Run]: it returns, the events it adds are justified, and
    the failures it dispatches are failures of the batch, in the order of
    the batch. *)
Lemma Run_loop_calls first failures : forall w,
  is_Some (recent (mon w)) ->
  exists w' evs,
    for_each (Run_body rt first) failures w = Done tt w' /\
    events w' = events w ++ evs /\
    config w' = config w /\
    Forall (justified rt (mon w)) evs /\
    dispatches evs `sublist_of` (ID <$> failures).
Proof.
  induction failures as [|f fs IH]; intros w [c Hc].
  { exists w, []. rewrite app_nil_r. by repeat split. }
  destruct (Run_body_spec rt f first w c Hc)
    as (w1 & evs1 & Hrun & Hevs1 & _ & _ & Hcases).
  assert (Hop : op rt (fun _ => True) w w1) by (by eapply op_body).
  destruct (op_frame rt _ _ _ Hop) as (Hcfg1 & _ & _ & Hsome1).
  assert (Hjust1 : Forall (justified rt (mon w)) evs1).
  { destruct Hcases as [(_ & _ & ->)|(Hs & _ & _ & _ & Hnil)]; [done|].
    destruct (accepts rt f first w) eqn:Hacc; [|by rewrite Hnil].
    unfold Run_body, bind in Hrun.
    rewrite (checkFailure_unseen rt _ _ _ c Hc Hs) in Hrun.
    fold (accepts rt f first w) in Hrun. rewrite Hacc in Hrun.
    set (wa := tick _) in Hrun.
    destruct (processFailure_justified f wa)
      as (r & w2 & evs & Hproc & Hevs & Hjust).
    rewrite Hproc in Hrun.
    assert (Hjust' : Forall (justified rt (mon w)) evs).
    { eapply Forall_impl; [exact Hjust|]. intros e. by apply justified_config. }
    destruct r as [e|]; injection Hrun as <-.
    - simpl in Hevs1. rewrite Hevs, <- app_assoc in Hevs1.
      apply app_inv_head in Hevs1 as <-.
      apply Forall_app. split; [done|]. by repeat constructor.
    - rewrite Hevs in Hevs1. by apply app_inv_head in Hevs1 as <-. }
  assert (Hdisp1 : dispatches evs1 `sublist_of` [ID f]).
  { destruct Hcases as [(_ & _ & ->)|(_ & _ & _ & -> & _)].
    - apply sublist_nil_l.
    - destruct (accepts rt f first w); [done|apply sublist_nil_l]. }
  destruct (IH w1 (Hsome1 ltac:(by eexists)))
    as (w' & evs & Hloop & Hevs & Hcfg & Hjust & Hdisp).
  exists w', (evs1 ++ evs). rewrite for_each_cons, Hrun.
  split; [done|]. split; [by rewrite Hevs, Hevs1, app_assoc|].
  split; [congruence|]. split.
  - apply Forall_app. split; [done|].
    eapply Forall_impl; [exact Hjust|]. intros e. by apply justified_config.
  - rewrite dispatches_app, fmap_cons.
    by apply (sublist_app _ [ID f]).
Qed.

(** X8: every call a run makes has its reason.  The uploader is called
    only with the URLs the cluster resolved for that failure, so never for a
    failure whose resolution failed; a reporter is called only under a name
    it is registered with, for one of its instances for that failure, and
    with the URLs the uploader returned for it, so never for a failure whose
    resolution or upload failed. *)
Theorem Run_makes_justified_calls_only w :
  exists w',
    Run rt w = Done (Failures (mesos (mon w)) (polls w)).2 w' /\
    Forall (justified rt (mon w)) (events_since w w').
Proof.
  destruct (Failures (mesos (mon w)) (polls w)) as [failures [e|]] eqn:Hpoll.
  { exists (polled w). rewrite (Run_poll_failed rt w failures e Hpoll).
    split; [done|]. unfold events_since. simpl. by rewrite drop_all. }
  rewrite (Run_polled rt w failures Hpoll). unfold bind at 1.
  assert (exists first w0, Run_init (polled w) = Done first w0 /\
            is_Some (recent (mon w0)) /\ events w0 = events w /\
            config w0 = config w)
    as (first & w0 & Hinit & Hsome & Hev0 & Hcfg0).
  { destruct (recent (mon (polled w))) as [c|] eqn:Hc.
    - exists false, (polled w). rewrite (Run_init_Some _ c Hc).
      split; [done|]. by rewrite Hc.
    - eexists true, _. rewrite (Run_init_nil _ Hc). split; [done|].
      split; [by eexists|done]. }
  rewrite Hinit. unfold bind at 1.
  destruct (Run_loop_calls first failures w0 Hsome)
    as (w1 & evs & Hloop & Hevs & Hcfg1 & Hjust & _).
  rewrite Hloop. unfold bind.
  destruct (cleanupRecent_returns rt w1) as (w' & Hclean & Hev' & _).
  rewrite Hclean. exists w'. split; [done|].
  unfold events_since. rewrite Hev', Hevs, Hev0, drop_app_length.
  eapply Forall_impl; [exact Hjust|]. intros e. by apply justified_config.
Qed.

(** X9: a run dispatches failures of its batch only, in the order of the
    batch: the IDs handed to [processFailure] form a sublist of the IDs
    polled. *)
Theorem Run_dispatches_in_batch_order w failures :
  Failures (mesos (mon w)) (polls w) = (failures, None) ->
  exists w',
    Run rt w = Done None w' /\
    dispatches (events_since w w') `sublist_of` (ID <$> failures).
Proof.
  intros Hpoll. rewrite (Run_polled rt w failures Hpoll). unfold bind at 1.
  assert (exists first w0, Run_init (polled w) = Done first w0 /\
            is_Some (recent (mon w0)) /\ events w0 = events w)
    as (first & w0 & Hinit & Hsome & Hev0).
  { destruct (recent (mon (polled w))) as [c|] eqn:Hc.
    - exists false, (polled w). rewrite (Run_init_Some _ c Hc).
      split; [done|]. by rewrite Hc.
    - eexists true, _. rewrite (Run_init_nil _ Hc). split; [done|].
      split; [by eexists|done]. }
  rewrite Hinit. unfold bind at 1.
  destruct (Run_loop_calls first failures w0 Hsome)
    as (w1 & evs & Hloop & Hevs & _ & _ & Hdisp).
  rewrite Hloop. unfold bind.
  destruct (cleanupRecent_returns rt w1) as (w' & Hclean & Hev' & _).
  rewrite Hclean. exists w'. split; [done|].
  unfold events_since. by rewrite Hev', Hevs, Hev0, drop_app_length.
Qed.

End MoreOnCalls.

(** ** Reporters and their instances; the first poll; the cache over the
    life of the process *)

Section MoreOnDispatch.

Context (rt : Runtime).

Lemma instances_called_app n calls calls' :
  instances_called n (calls ++ calls') =
    instances_called n calls ++ instances_called n calls'.
Proof. apply omap_app. Qed.

Lemma instances_called_one n n' (failure : Failure) (urls : string * string)
    (insts : list string) :
  instances_called n (i ← insts; [(n', i, failure, urls)]) =
    if decide (n' = n) then insts else [].
Proof.
  induction insts as [|i insts IH].
  { by destruct (decide (n' = n)). }
  rewrite bind_cons, instances_called_app, IH.
  simpl. by destruct (decide (n' = n)).
Qed.

Lemma instances_called_all n (failure : Failure) (urls : string * string)
    (inst : string -> list string) (rs : list (string * Reporter)) :
  NoDup rs.*1 ->
  instances_called n
    ('(n', _) ← rs; i ← inst n'; [(n', i, failure, urls)]) =
    if decide (n ∈ rs.*1) then inst n else [].
Proof.
  induction rs as [|[n' r] rs IH]; intros Hnd.
  { simpl. destruct (decide (n ∈ [])) as [Hn|]; [|done].
    by apply elem_of_nil in Hn. }
  rewrite fmap_cons in *. apply NoDup_cons in Hnd as [Hn' Hnd].
  rewrite bind_cons, instances_called_app, instances_called_one, IH by done.
  destruct (decide (n' = n)) as [->|Hne].
  - rewrite (decide_True (P := n ∈ n :: rs.*1)) by left.
    rewrite (decide_False (P := n ∈ rs.*1)) by done.
    by rewrite app_nil_r.
  - simpl. destruct (decide (n ∈ rs.*1)) as [Hin|Hin].
    + rewrite decide_True; [done|]. by right.
    + rewrite decide_False; [done|].
      intros [->|?]%elem_of_cons; done.
Qed.

Lemma range_fair_names {V} (m : gmap string V) k :
  range_fair rt ->
  NoDup (range_keys rt k (dom m)) /\
  (forall n, n ∈ range_keys rt k (dom m) <-> is_Some (m !! n)).
Proof.
  intros Hfair. pose proof (Hfair k (dom m)) as Hp. split.
  - rewrite Hp. apply NoDup_elements.
  - intros n. rewrite Hp, elem_of_elements. apply elem_of_dom.
Qed.

(** X10: when the log URLs of a failure are resolved and uploaded and the
    loop visits every reporter once, the reporter registered as [n] is
    called for exactly its instances for that failure, each once and in
    their order; a reporter without instances is not called, and no call is
    made under a name that is not registered. *)
Theorem each_reporter_is_called_for_its_instances
    w failure stdoutURL stderrURL out err n :
  range_fair rt ->
  Logs (mesos (mon w)) failure = (stdoutURL, stderrURL, None) ->
  Upload (uploader (mon w)) failure stdoutURL stderrURL = (out, err, None) ->
  exists w',
    processFailure rt failure w = Done None w' /\
    instances_called n (report_calls (events_since w w')) =
      if decide (n ∈ dom (reporters (mon w)))
      then Instances rt (NewLabels (name (mon w)) (Labels failure)) n
      else [].
Proof.
  intros Hfair HL HU.
  eexists. split; [exact (processFailure_reports rt _ _ _ _ _ _ HL HU)|].
  unfold events_since. simpl. rewrite drop_app_length.
  change (report_calls (?a :: ?b :: ?c :: ?evs)) with (report_calls evs).
  rewrite report_calls_report_events.
  destruct (range_fair_names (reporters (mon w)) (ranges w) Hfair)
    as (Hnd & Hks).
  assert (Hfst : (reporters_in_order rt w).*1 =
                 range_keys rt (ranges w) (dom (reporters (mon w)))).
  { apply range_entries_fst. intros n'. apply Hks. }
  rewrite (instances_called_all n failure (out, err)
             (Instances rt (NewLabels (name (mon w)) (Labels failure))))
    by (by rewrite Hfst).
  rewrite Hfst.
  destruct (decide (n ∈ dom (reporters (mon w)))) as [Hin|Hin].
  - rewrite decide_True; [done|]. by apply Hks, elem_of_dom.
  - rewrite decide_False; [done|]. intros Hn. by apply Hin, elem_of_dom, Hks.
Qed.

(** X11: a first poll that succeeds with an empty batch ends the first run
    all the same: it creates the cache, so the next run is no longer the
    first one and dispatches a failure that is new and at most
    [timeout / 2] old.  (A first poll that fails leaves the cache
    uncreated, and the run after it is still the first one.) *)
Theorem empty_first_poll_ends_the_first_run w failure rest :
  recent (mon w) = None ->
  Failures (mesos (mon w)) (polls w) = ([], None) ->
  Failures (mesos (mon w)) (S (polls w)) = (failure :: rest, None) ->
  (clock rt (ticks w) <= Finished failure + timeout / 2)%Z ->
  exists w' ids,
    Runs rt 2 w = Done [None; None] w' /\
    dispatches (events_since w w') = ID failure :: ids.
Proof.
  intros Hnil Hpoll1 Hpoll2 Hfresh.
  set (w1 := ranged (set_recent (Some ∅) (polled w))).
  assert (Hrun1 : Run rt w = Done None w1).
  { rewrite (Run_polled rt w [] Hpoll1). unfold bind at 1.
    rewrite (Run_init_nil (polled w) Hnil). unfold bind at 1.
    cbn [for_each]. unfold ret at 1. unfold bind.
    by rewrite (cleanupRecent_empty rt (set_recent (Some ∅) (polled w))
                  eq_refl). }
  assert (Hc1 : recent (mon (polled w1)) = Some ∅) by done.
  destruct (Run_body_spec rt failure false (polled w1) ∅ Hc1)
    as (w2 & evs2 & Hbody & Hevs2 & _ & _ & Hcases).
  assert (Hdisp2 : dispatches evs2 = [ID failure]).
  { destruct Hcases as [(Hs & _)|(_ & _ & _ & Hdisp & _)].
    - by rewrite (seen_Some _ ∅), lookup_empty in Hs.
    - rewrite Hdisp. unfold accepts. simpl.
      apply Z.ltb_ge in Hfresh. by rewrite Hfresh. }
  assert (Hsome2 : is_Some (recent (mon w2))).
  { eapply (op_frame rt (fun _ => True)); [by eapply op_body|by eexists]. }
  destruct (Run_loop_calls rt false rest w2 Hsome2)
    as (w3 & evs3 & Hloop & Hevs3 & _).
  destruct (cleanupRecent_returns rt w3) as (w' & Hclean & Hev' & _).
  assert (Hrun2 : Run rt w1 = Done None w').
  { rewrite (Run_polled rt w1 (failure :: rest) Hpoll2). unfold bind at 1.
    rewrite (Run_init_Some (polled w1) ∅ Hc1). unfold bind at 1.
    rewrite for_each_cons, Hbody, Hloop. unfold bind. by rewrite Hclean. }
  exists w', (dispatches evs3). split.
  - simpl. unfold bind. by rewrite Hrun1, Hrun2.
  - unfold events_since. rewrite Hev', Hevs3, Hevs2. simpl.
    rewrite <- app_assoc, drop_app_length, dispatches_app, Hdisp2. done.
Qed.

(** X12: whatever the life of the process, its cache holds nothing but what
    the cluster reported: after any number of runs every entry is the ID of
    a polled failure with the [Finished] timestamp of that failure. *)
Theorem cache_holds_polled_failures_only w0 n :
  recent (mon w0) = None ->
  exists rs w,
    Runs rt n w0 = Done rs w /\
    forall c id ts,
      recent (mon w) = Some c -> c !! id = Some ts ->
      exists failure,
        polled_by (mesos (mon w0)) failure /\
        ID failure = id /\ Finished failure = ts.
Proof.
  intros Hnil.
  destruct (Runs_ops rt (polled_by (mesos (mon w0))) n w0 ltac:(done))
    as (rs & w & Hruns & Hops).
  exists rs, w. split; [done|].
  apply (ops_cache_from rt _ _ _ Hops).
  intros c id ts Hc. congruence.
Qed.

(** X13: the line a run logs for a dispatch that failed names the stage
    that failed and carries the error of the collaborator.  When the
    resolution of the log URLs fails for an accepted failure, the loop body
    of [Run] adds three events, the line for the failure, the call of the
    resolution and the line for the error, and the uploader is not called;
    when the upload fails, the uploader was called once, with the URLs
    resolved, and no reporter is called. *)
Theorem dispatch_error_names_its_stage failure first w wa :
  checkFailure rt failure first w = Done true wa ->
  (forall stdoutURL stderrURL e,
     Logs (mesos (mon w)) failure = (stdoutURL, stderrURL, Some e) ->
     exists w',
       Run_body rt first failure w = Done tt w' /\
       events_since w w' =
         [LogReporting failure; CallLogs failure;
          LogErrorReporting (ID failure)
            ("cannot get stdout and stderr urls from mesos: " +:+ e)]) /\
  (forall stdoutURL stderrURL out err e,
     Logs (mesos (mon w)) failure = (stdoutURL, stderrURL, None) ->
     Upload (uploader (mon w)) failure stdoutURL stderrURL =
       (out, err, Some e) ->
     exists w',
       Run_body rt first failure w = Done tt w' /\
       events_since w w' =
         [LogReporting failure; CallLogs failure;
          CallUpload failure stdoutURL stderrURL;
          LogErrorReporting (ID failure)
            ("cannot get stdout and stderr urls from uploader: " +:+ e)]).
Proof.
  intros Hcheck.
  assert (is_Some (recent (mon w))) as [c Hc].
  { destruct (recent (mon w)) as [c|] eqn:Hc; [by eexists|].
    by rewrite (checkFailure_nil rt _ _ _ Hc) in Hcheck. }
  destruct (decide (seen w (ID failure) = 0%Z)) as [Hs|Hs].
  2:{ by rewrite checkFailure_cached in Hcheck. }
  pose proof Hcheck as Hwa.
  rewrite (checkFailure_unseen rt _ _ _ c Hc Hs) in Hwa.
  injection Hwa as _ Hwa.
  assert (Hmon : mesos (mon wa) = mesos (mon w) /\
                 uploader (mon wa) = uploader (mon w) /\
                 events wa = events w) by (by rewrite <- Hwa).
  destruct Hmon as (Hmesos & Hup & Hev).
  split.
  - intros stdoutURL stderrURL e HL. rewrite <- Hmesos in HL.
    eexists. unfold Run_body, bind. rewrite Hcheck.
    rewrite (processFailure_no_logs rt _ _ _ _ _ HL).
    split; [done|]. unfold events_since, log_Printf, emitted, emitted_all.
    cbn [events]. by rewrite Hev, <- app_assoc, drop_app_length.
  - intros stdoutURL stderrURL out err e HL HU.
    rewrite <- Hmesos in HL. rewrite <- Hup in HU.
    eexists. unfold Run_body, bind. rewrite Hcheck.
    rewrite (processFailure_no_upload rt _ _ _ _ _ _ _ HL HU).
    split; [done|]. unfold events_since, log_Printf, emitted, emitted_all.
    cbn [events]. by rewrite Hev, <- app_assoc, drop_app_length.
Qed.

End MoreOnDispatch.

(** ** Examples *)

(** From the zero time to the year 2025 is more than an [int64] of
    nanoseconds: the difference is pinned. *)
Example Sub_from_zero_time : Sub Scenario.noon 0 = maxDuration.
Proof. reflexivity. Qed.

Example Sub_ten_seconds :
  Sub Scenario.noon (Scenario.noon - 10 * Second) = (10 * Second)%Z.
Proof. reflexivity. Qed.

(** At noon, in a run that is not the first: a failure ten seconds old is
    accepted, one thirty seconds old still is, one fifty seconds old is
    not; and in the first run none is. *)
Example checkFailure_ten_seconds_old :
  Scenario.result
    (checkFailure Scenario.rt
       (Scenario.task "a" (Scenario.noon - 10 * Second)) false)
    (Scenario.started [] ∅) = Some true.
Proof. reflexivity. Qed.

Example checkFailure_thirty_seconds_old :
  Scenario.result
    (checkFailure Scenario.rt
       (Scenario.task "a" (Scenario.noon - 30 * Second)) false)
    (Scenario.started [] ∅) = Some true.
Proof. reflexivity. Qed.

Example checkFailure_fifty_seconds_old :
  Scenario.result
    (checkFailure Scenario.rt
       (Scenario.task "a" (Scenario.noon - 50 * Second)) false)
    (Scenario.started [] ∅) = Some false.
Proof. reflexivity. Qed.

Example checkFailure_first_run :
  Scenario.result
    (checkFailure Scenario.rt
       (Scenario.task "a" (Scenario.noon - 10 * Second)) true)
    (Scenario.started [] ∅) = Some false.
Proof. reflexivity. Qed.

(** Before the cache is created, [checkFailure] panics. *)
Example checkFailure_without_cache :
  checkFailure Scenario.rt Scenario.t1 false (Scenario.start []) =
    Panic "assignment to entry in nil map".
Proof. reflexivity. Qed.

(** A failure dispatched to the reporters "slack", which has the instance
    "team-a" and fails, and "email", which has no instance: one call, and
    one line logged for its error. *)
Example processFailure_fans_out :
  events (Scenario.after (processFailure Scenario.rt Scenario.t3)
            (Scenario.started [] ∅)) =
  [LogReporting Scenario.t3;
   CallLogs Scenario.t3;
   CallUpload Scenario.t3 "stdout of t3" "stderr of t3";
   CallReport "slack" Scenario.t3
     (NewConfigProvider (NewLabels "default" []) "slack" "team-a")
     "s3: stdout of t3" "s3: stderr of t3";
   LogCannotReport "slack" "team-a" "t3" "connection refused"].
Proof. vm_compute. reflexivity. Qed.

Lemma Scenario_rt_fair : range_fair Scenario.rt.
Proof. intros k X. reflexivity. Qed.

Lemma Scenario_frozen_fair t : range_fair (Scenario.frozen t).
Proof. intros k X. reflexivity. Qed.

(** A failure that finished fifty seconds before its evaluation. *)
Lemma stale_failure_example :
  exists w' c',
    checkFailure Scenario.rt
      (Scenario.task "t1" (Scenario.noon - 50 * Second)) false
      (Scenario.started [] ∅) = Done false w' /\
    Run_body Scenario.rt false
      (Scenario.task "t1" (Scenario.noon - 50 * Second))
      (Scenario.started [] ∅) = Done tt w' /\
    events w' = [] /\
    recent (mon w') = Some c' /\
    is_Some (c' !! "t1") /\
    ((∅ : gmap string Time) !! "t1" = None ->
     c' !! "t1" = Some (Scenario.noon - 50 * Second)%Z).
Proof.
  apply (stale_failure_is_recorded_but_not_dispatched Scenario.rt
           (Scenario.task "t1" (Scenario.noon - 50 * Second)) false
           (Scenario.started [] ∅) ∅).
  - reflexivity.
  - vm_compute. reflexivity.
Defined.

(** A failure with the zero time as its [Finished] timestamp is evaluated
    again although its entry is in the cache: the second evaluation reads
    the clock. *)
Lemma zero_Finished_is_evaluated_again : ~ evaluated_once_while_cached.
Proof.
  intros Hclaim.
  destruct (Hclaim Scenario.rt (Scenario.task "t0" 0) false
              (Scenario.started [] ∅) ∅ eq_refl (lookup_empty _))
    as (b & w1 & c1 & _ & Hc1 & Hin & Hlater).
  specialize (Hlater w1 c1 (Scenario.task "t0" 0) false Hc1 Hin eq_refl).
  rewrite (checkFailure_unseen _ _ _ _ c1) in Hlater.
  - injection Hlater as _ Hw. apply (f_equal ticks) in Hw. simpl in Hw. lia.
  - done.
  - rewrite (seen_Some _ c1) by done. simpl in Hin. simpl. by rewrite Hin.
Qed.

Lemma nonzero_failure_example :
  exists w1 c1,
    checkFailure Scenario.rt (Scenario.task "t1" Scenario.noon) false
      (Scenario.started [] ∅) = Done true w1 /\
    recent (mon w1) = Some c1 /\
    c1 !! "t1" = Some Scenario.noon /\
    forall w2 c2 again first',
      recent (mon w2) = Some c2 ->
      c2 !! "t1" = Some Scenario.noon ->
      ID again = "t1" ->
      checkFailure Scenario.rt again first' w2 = Done false w2.
Proof.
  apply (nonzero_failure_is_evaluated_once Scenario.rt
           (Scenario.task "t1" Scenario.noon) false (Scenario.started [] ∅) ∅).
  - vm_compute. discriminate.
  - reflexivity.
  - apply lookup_empty.
Defined.

Lemma presence_example :
  (forall ts, ({["t0" := 0%Z]} : gmap string Time) !! "t0" = Some ts ->
     ts <> 0%Z ->
     checkFailure Scenario.rt (Scenario.task "t0" 0) false
       (Scenario.started [] {["t0" := 0%Z]}) =
     Done false (Scenario.started [] {["t0" := 0%Z]})) /\
  (({["t0" := 0%Z]} : gmap string Time) !! "t0" = Some 0%Z ->
     checkFailure Scenario.rt (Scenario.task "t0" 0) false
       (Scenario.started [] {["t0" := 0%Z]}) =
     checkFailure Scenario.rt (Scenario.task "t0" 0) false
       (set_recent (Some (delete "t0" {["t0" := 0%Z]}))
          (Scenario.started [] {["t0" := 0%Z]})) /\
     exists b,
       checkFailure Scenario.rt (Scenario.task "t0" 0) false
         (Scenario.started [] {["t0" := 0%Z]}) =
       Done b (tick (set_recent (Some (<["t0" := 0%Z]> {["t0" := 0%Z]}))
                       (Scenario.started [] {["t0" := 0%Z]})))) /\
  (0%Z = 0%Z ->
     (timeout / 2 < Scenario.noon)%Z ->
     exists w',
       checkFailure Scenario.rt (Scenario.task "t0" 0) false
         (Scenario.started [] {["t0" := 0%Z]}) = Done false w').
Proof.
  apply (presence_is_a_nonzero_timestamp Scenario.rt (Scenario.task "t0" 0)
           false (Scenario.started [] {["t0" := 0%Z]}) {["t0" := 0%Z]}).
  reflexivity.
Defined.

Lemma poll_error_example :
  exists w',
    Run Scenario.rt (Scenario.start []) =
      Done (Some "mesos is unreachable") w' /\
    mon w' = mon (Scenario.start []) /\ ticks w' = 0 /\ ranges w' = 0 /\
    events w' = [] /\ polls w' = 1.
Proof.
  apply (poll_error_aborts_the_run Scenario.rt (Scenario.start []) []).
  reflexivity.
Defined.

(** An entry whose timestamp is exactly [timeout] old is not purged. *)
Lemma entry_survives_purge_at_timeout : ~ evicted_from_timeout_on.
Proof.
  intros Hclaim.
  destruct (Hclaim (Scenario.frozen (Scenario.noon + timeout))
              (Scenario.started [] {["t1" := Scenario.noon]})
              {["t1" := Scenario.noon]} "t1" Scenario.noon
              (Scenario_frozen_fair _) eq_refl (lookup_singleton_eq _ _))
    as (w' & c' & Hrun & Hc' & Hgone & _).
  vm_compute in Hrun. injection Hrun as <-.
  vm_compute in Hc'. injection Hc' as <-.
  specialize (Hgone (fun _ => Z.le_refl _)).
  vm_compute in Hgone. discriminate.
Qed.

Lemma eviction_example :
  exists c',
    cleanupRecent Scenario.rt
      (Scenario.started [] {["t1" := (Scenario.noon - timeout - 1)%Z]}) =
    Done tt (advance 1 (ranged (set_recent (Some c')
      (Scenario.started [] {["t1" := (Scenario.noon - timeout - 1)%Z]})))) /\
    c' !! "t1" = None.
Proof.
  destruct (eviction_removes_entries_older_than_timeout Scenario.rt
              (Scenario.started [] {["t1" := (Scenario.noon - timeout - 1)%Z]})
              {["t1" := (Scenario.noon - timeout - 1)%Z]}
              Scenario_rt_fair eq_refl) as (c' & Hrun & _ & Hin).
  exists c'. split; [exact Hrun|].
  destruct (Hin "t1" _ (lookup_singleton_eq _ _)) as (_ & Hgone & _).
  apply Hgone. intros k Hk. vm_compute in Hk.
  assert (k = 0) as -> by lia. vm_compute. reflexivity.
Defined.

Lemma Scenario_rt_monotone : clock_monotone Scenario.rt.
Proof.
  intros i j Hij. unfold Scenario.rt, clock.
  pose proof (Nat2Z.inj_le i j). unfold Second, Millisecond, Microsecond,
    Nanosecond. lia.
Qed.

Lemma Scenario_rt_past_zero : clock_past_zero Scenario.rt.
Proof.
  intros k. unfold Scenario.rt, clock. rewrite half_timeout_value.
  unfold Scenario.noon, Second, Millisecond, Microsecond, Nanosecond. lia.
Qed.

Lemma Scenario_batches_stable :
  stable_IDs (polled_by (mesos (mon (Scenario.start Scenario.batches)))).
Proof.
  assert (Hall : forall f,
    polled_by (mesos (mon (Scenario.start Scenario.batches))) f ->
    f = Scenario.t1 \/ f = Scenario.t2 \/ f = Scenario.t3).
  { intros f [k Hk]. simpl in Hk.
    destruct k as [|[|[|k]]]; simpl in Hk;
      repeat (apply elem_of_cons in Hk as [->|Hk]; [by auto|]);
      by apply elem_of_nil in Hk. }
  intros f g Hf Hg Hid.
  destruct (Hall f Hf) as [->|[->| ->]], (Hall g Hg) as [->|[->| ->]];
    done.
Qed.

(** Three runs of the scenario: the first one dispatches nothing, the
    second one dispatches [t3], once although it is polled twice, and the
    third one does not dispatch it again. *)
Lemma at_most_once_example :
  exists rs w,
    Runs Scenario.rt 3 (Scenario.start Scenario.batches) = Done rs w /\
    dispatches (events w) = ["t3"] /\
    NoDup (dispatches (events w)).
Proof.
  destruct (each_ID_is_accepted_at_most_once Scenario.rt
              (Scenario.start Scenario.batches)
              Scenario_rt_monotone Scenario_rt_past_zero
              Scenario_batches_stable eq_refl eq_refl)
    as (Hruns & Honce & _).
  destruct (Hruns 3) as (rs & w & Hrun & Hops).
  exists rs, w. split; [exact Hrun|]. split; [|by apply Honce].
  vm_compute in Hrun. injection Hrun as _ <-. vm_compute. reflexivity.
Defined.



(** [t3] is accepted at noon; two runs later, seven seconds after noon,
    its entry is still in the cache and ends every evaluation of the ID. *)
Lemma accepted_ID_example :
  exists c2,
    recent (mon (Scenario.after (Runs Scenario.rt 2)
                   (Scenario.after (Run_body Scenario.rt false Scenario.t3)
                      (Scenario.started Scenario.batches ∅)))) = Some c2 /\
    c2 !! "t3" = Some (Scenario.noon + 3 * Second)%Z /\
    forall again first',
      ID again = "t3" ->
      checkFailure Scenario.rt again first'
        (Scenario.after (Runs Scenario.rt 2)
           (Scenario.after (Run_body Scenario.rt false Scenario.t3)
              (Scenario.started Scenario.batches ∅))) =
      Done false
        (Scenario.after (Runs Scenario.rt 2)
           (Scenario.after (Run_body Scenario.rt false Scenario.t3)
              (Scenario.started Scenario.batches ∅))).
Proof.
  set (w := Scenario.started Scenario.batches ∅).
  set (w1 := Scenario.after (Run_body Scenario.rt false Scenario.t3) w).
  set (w2 := Scenario.after (Runs Scenario.rt 2) w1).
  apply (accepted_ID_stays_cached_for_half_timeout Scenario.rt
           (fun _ => True) Scenario.t3 false w
           (Scenario.after (checkFailure Scenario.rt Scenario.t3 false) w)
           w1 w2).
  - vm_compute. reflexivity.
  - vm_compute. reflexivity.
  - vm_compute. reflexivity.
  - destruct (Runs_ops Scenario.rt (fun _ => True) 2 w1 ltac:(done))
      as (rs & w2' & Hruns & Hops).
    unfold w2, Scenario.after. by rewrite Hruns.
  - intros k Hk. assert (k < 30) as Hlt by (vm_compute in Hk; lia).
    unfold Scenario.rt, clock. rewrite half_timeout_value.
    unfold Second, Millisecond, Microsecond, Nanosecond. lia.
Defined.



(** ** Examples of the further properties *)

(** [t1] evaluated at noon against a cache that holds [t2]. *)
Lemma checkFailure_frame_example :
  exists b w' c',
    checkFailure Scenario.rt Scenario.t1 false
      (Scenario.started [] {["t2" := (Scenario.noon - 50 * Second)%Z]})
      = Done b w' /\
    recent (mon w') = Some c' /\
    events w' = [] /\
    c' !! "t2" = Some (Scenario.noon - 50 * Second)%Z.
Proof.
  destruct (checkFailure_touches_only_its_entry Scenario.rt Scenario.t1 false
              (Scenario.started [] {["t2" := (Scenario.noon - 50 * Second)%Z]})
              {["t2" := (Scenario.noon - 50 * Second)%Z]} eq_refl)
    as (b & w' & c' & Hcheck & Hc' & _ & Hev & _ & _ & _ & Hother & _).
  exists b, w', c'. split; [exact Hcheck|]. split; [exact Hc'|].
  split; [exact Hev|]. rewrite Hother; [reflexivity|discriminate].
Defined.

(** [t3], which finishes three seconds after noon, is accepted at noon. *)
Lemma checkFailure_accepts_example :
  exists w',
    checkFailure Scenario.rt Scenario.t3 false (Scenario.started [] ∅)
      = Done true w'.
Proof.
  apply (checkFailure_accepts_iff Scenario.rt Scenario.t3 false
           (Scenario.started [] ∅) ∅ eq_refl).
  split; [reflexivity|]. split; [|reflexivity]. vm_compute. discriminate.
Defined.

Lemma Run_body_dispatch_example :
  exists b wa w',
    checkFailure Scenario.rt Scenario.t3 false (Scenario.started [] ∅)
      = Done b wa /\
    Run_body Scenario.rt false Scenario.t3 (Scenario.started [] ∅)
      = Done tt w' /\
    b = true /\
    dispatches (events w') = ["t3"].
Proof.
  destruct (Run_body_dispatches_what_is_accepted Scenario.rt Scenario.t3 false
              (Scenario.started [] ∅) ∅ eq_refl)
    as (b & wa & w' & Hcheck & Hbody & Hif).
  exists b, wa, w'. split; [exact Hcheck|]. split; [exact Hbody|].
  vm_compute in Hcheck. injection Hcheck as <- _.
  destruct Hif as (_ & _ & Hdisp & _). split; [reflexivity|exact Hdisp].
Defined.

(** [t1] polled again while it is in the cache. *)
Lemma repolled_batch_example :
  (forall first,
     for_each (Run_body Scenario.rt first) [Scenario.t1]
       (Scenario.started [[Scenario.t1]] {["t1" := Scenario.noon]}) =
     Done tt (Scenario.started [[Scenario.t1]] {["t1" := Scenario.noon]})) /\
  exists w',
    cleanupRecent Scenario.rt
      (polled (Scenario.started [[Scenario.t1]] {["t1" := Scenario.noon]}))
      = Done tt w' /\
    Run Scenario.rt
      (Scenario.started [[Scenario.t1]] {["t1" := Scenario.noon]})
      = Done None w' /\
    events w' = [].
Proof.
  apply (repolled_batch_changes_nothing Scenario.rt [Scenario.t1]
           (Scenario.started [[Scenario.t1]] {["t1" := Scenario.noon]})
           {["t1" := Scenario.noon]}).
  - reflexivity.
  - reflexivity.
  - intros failure ->%list_elem_of_singleton. vm_compute. discriminate.
Defined.

(** A cache with an entry two minutes old and one of noon, purged at noon:
    the old entry goes. *)
Lemma purge_example :
  exists w' c',
    cleanupRecent Scenario.rt
      (Scenario.started []
         (<["old" := (Scenario.noon - 2 * Minute)%Z]>
            {["t1" := Scenario.noon]})) = Done tt w' /\
    recent (mon w') = Some c' /\
    c' !! "old" = None.
Proof.
  destruct (purge_leaves_no_old_entry Scenario.rt
              (Scenario.started []
                 (<["old" := (Scenario.noon - 2 * Minute)%Z]>
                    {["t1" := Scenario.noon]}))
              (<["old" := (Scenario.noon - 2 * Minute)%Z]>
                 {["t1" := Scenario.noon]})
              Scenario_rt_fair Scenario_rt_monotone eq_refl)
    as (w' & c' & Hrun & Hc' & Hold).
  exists w', c'. split; [exact Hrun|]. split; [exact Hc'|].
  destruct (c' !! "old") as [ts|] eqn:Hts; [|reflexivity].
  destruct (Hold "old" ts Hts) as [Hin Hle].
  vm_compute in Hin. injection Hin as <-. vm_compute in Hle.
  exfalso. apply Hle. reflexivity.
Defined.

(** A run, not the first one, that polls [t1], [t2], [t3] and [t3] again at
    noon: [t1] and [t3] are dispatched, in this order. *)
Lemma batch_order_example :
  exists w',
    Run Scenario.rt
      (Scenario.started
         [[Scenario.t1; Scenario.t2; Scenario.t3; Scenario.t3]] ∅)
      = Done None w' /\
    dispatches (events w') = ["t1"; "t3"] /\
    dispatches (events w') `sublist_of` ["t1"; "t2"; "t3"; "t3"].
Proof.
  destruct (Run_dispatches_in_batch_order Scenario.rt
              (Scenario.started
                 [[Scenario.t1; Scenario.t2; Scenario.t3; Scenario.t3]] ∅)
              [Scenario.t1; Scenario.t2; Scenario.t3; Scenario.t3] eq_refl)
    as (w' & Hrun & Hsub).
  exists w'. split; [exact Hrun|]. split; [|exact Hsub].
  vm_compute in Hrun. injection Hrun as <-. vm_compute. reflexivity.
Defined.

(** "slack" has the instance "team-a", "email" has none, and "pager" is
    not registered. *)
Lemma reporter_instances_example :
  (exists w',
     processFailure Scenario.rt Scenario.t3 (Scenario.started [] ∅)
       = Done None w' /\
     instances_called "slack"
       (report_calls (events_since (Scenario.started [] ∅) w')) = ["team-a"]) /\
  (exists w',
     processFailure Scenario.rt Scenario.t3 (Scenario.started [] ∅)
       = Done None w' /\
     instances_called "email"
       (report_calls (events_since (Scenario.started [] ∅) w')) = []) /\
  (exists w',
     processFailure Scenario.rt Scenario.t3 (Scenario.started [] ∅)
       = Done None w' /\
     instances_called "pager"
       (report_calls (events_since (Scenario.started [] ∅) w')) = []).
Proof.
  split; [|split].
  - exact (each_reporter_is_called_for_its_instances Scenario.rt
             (Scenario.started [] ∅) Scenario.t3
             "stdout of t3" "stderr of t3" "s3: stdout of t3" "s3: stderr of t3"
             "slack" Scenario_rt_fair eq_refl eq_refl).
  - exact (each_reporter_is_called_for_its_instances Scenario.rt
             (Scenario.started [] ∅) Scenario.t3
             "stdout of t3" "stderr of t3" "s3: stdout of t3" "s3: stderr of t3"
             "email" Scenario_rt_fair eq_refl eq_refl).
  - exact (each_reporter_is_called_for_its_instances Scenario.rt
             (Scenario.started [] ∅) Scenario.t3
             "stdout of t3" "stderr of t3" "s3: stdout of t3" "s3: stderr of t3"
             "pager" Scenario_rt_fair eq_refl eq_refl).
Defined.

(** A process whose first poll is empty and whose second poll returns
    [t3]: the second run dispatches it. *)
Lemma empty_first_poll_example :
  exists w' ids,
    Runs Scenario.rt 2 (Scenario.start [[]; [Scenario.t3]])
      = Done [None; None] w' /\
    dispatches (events_since (Scenario.start [[]; [Scenario.t3]]) w')
      = "t3" :: ids.
Proof.
  apply (empty_first_poll_ends_the_first_run Scenario.rt
           (Scenario.start [[]; [Scenario.t3]]) Scenario.t3 []).
  - reflexivity.
  - reflexivity.
  - reflexivity.
  - vm_compute. discriminate.
Defined.

(** After the three runs of the scenario the cache holds [t1], [t2] and
    [t3], each with its [Finished] timestamp. *)
Lemma cache_of_polled_failures_example :
  exists rs w,
    Runs Scenario.rt 3 (Scenario.start Scenario.batches) = Done rs w /\
    forall c id ts,
      recent (mon w) = Some c -> c !! id = Some ts ->
      exists failure,
        polled_by (mesos (mon (Scenario.start Scenario.batches))) failure /\
        ID failure = id /\ Finished failure = ts.
Proof.
  apply (cache_holds_polled_failures_only Scenario.rt
           (Scenario.start Scenario.batches) 3).
  reflexivity.
Defined.

(** The log URLs of [t3] cannot be resolved. *)
Lemma dispatch_error_stage_example :
  exists w',
    Run_body Scenario.rt false Scenario.t3
      (set_recent (Some ∅) (Scenario.start_with [] ["t3"] Scenario.failing))
      = Done tt w' /\
    events w' =
      [LogReporting Scenario.t3; CallLogs Scenario.t3;
       LogErrorReporting "t3"
         "cannot get stdout and stderr urls from mesos: no such task"].
Proof.
  set (w := set_recent (Some ∅) (Scenario.start_with [] ["t3"] Scenario.failing)).
  destruct (dispatch_error_names_its_stage Scenario.rt Scenario.t3 false w
              (Scenario.after (checkFailure Scenario.rt Scenario.t3 false) w))
    as (Hlogs & _).
  - vm_compute. reflexivity.
  - destruct (Hlogs String.EmptyString String.EmptyString "no such task")
      as (w' & Hbody & Hev).
    + reflexivity.
    + exists w'. split; [exact Hbody|].
      unfold events_since in Hev. simpl in Hev. rewrite drop_0 in Hev.
      exact Hev.
Defined.
